(** * Exam Support Bot: the search engine of [app.py]

    A shallow embedding of the class [ExamSupportBot] of [app.py], with the
    parts of Python's [str], of pandas and of [difflib] that [search_issue]
    and [refresh] go through, and the properties of the search that the
    specification states.

    Conventions of the embedding.
    - Python text is [string]; a character is a code point of the Latin-1
      range (0..255), on which [str.lower], [str.isspace], [str.strip] and
      [str.split] are written out.
    - A cell of the sheet is missing (pandas' NaN or NaT), a text, or
      another value (a number, a boolean, a date), of which the embedding
      keeps what Python asks of it: its kind, its place in the order of
      that kind and its printed text.  Where [get_close_matches] is handed
      a value that is no text, or [sorted] values of two kinds, the
      embedding raises the [TypeError] that Python raises.
    - A [DataFrame] knows its column labels; a row is read through its
      labels.
    - [SequenceMatcher.ratio] is the double [2.0 * matches / length]; it is
      kept as the exact rational.  Two such quotients, or one of them and
      the cutoff [0.4], compare as their doubles do for texts shorter than
      2^26 characters, the quotients being apart by more than one unit in
      the last place.
    - A block [with self._lock:] is a [WithLock] node of a small program
      type, so that [search_issue] can be run alone or between the installs
      of another thread. *)

From Stdlib Require Import List Arith ZArith Lia Bool Ascii String QArith.
From Stdlib Require Import Permutation Sorted.
Import ListNotations.

Local Close Scope Q_scope.
Local Open Scope string_scope.
Local Open Scope list_scope.
Local Open Scope nat_scope.

(* ------------------------------------------------------------------ *)
(** ** Python [str] *)

Module Py.

(** [c.isspace()] on the Latin-1 range: TAB..CR, FS..US, SPACE, NEL, NBSP. *)
Definition isspace (c : ascii) : bool :=
  let n := nat_of_ascii c in
  ((9 <=? n) && (n <=? 13)) || ((28 <=? n) && (n <=? 32))
  || (n =? 133) || (n =? 160).

(** [c.lower()] on the Latin-1 range: A..Z and the accented capitals
    (all of 0xC0..0xDE but the multiplication sign 0xD7) move up by 32. *)
Definition lower_char (c : ascii) : ascii :=
  let n := nat_of_ascii c in
  if ((65 <=? n) && (n <=? 90))
     || ((192 <=? n) && (n <=? 222) && negb (n =? 215))
  then ascii_of_nat (n + 32) else c.

(** [s.lower()] *)
Fixpoint lower (s : string) : string :=
  match s with
  | EmptyString => EmptyString
  | String c s' => String (lower_char c) (lower s')
  end.

(** [s.lstrip()] *)
Fixpoint lstrip (s : string) : string :=
  match s with
  | EmptyString => EmptyString
  | String c s' => if isspace c then lstrip s' else s
  end.

(** [s.rstrip()] *)
Fixpoint rstrip (s : string) : string :=
  match s with
  | EmptyString => EmptyString
  | String c s' =>
      match rstrip s' with
      | EmptyString => if isspace c then EmptyString else String c EmptyString
      | r => String c r
      end
  end.

(** [s.strip()] *)
Definition strip (s : string) : string := rstrip (lstrip s).

(** [s.startswith(p)] *)
Fixpoint startswith (p s : string) : bool :=
  match p, s with
  | EmptyString, _ => true
  | String _ _, EmptyString => false
  | String a p', String b s' => Ascii.eqb a b && startswith p' s'
  end.

(** [p in s]: [p] occurs in [s] as a contiguous run. *)
Fixpoint contains (p s : string) : bool :=
  startswith p s ||
  match s with
  | EmptyString => false
  | String _ s' => contains p s'
  end.

(** [s.split()]: the maximal runs of non-space characters of [s].
    [w] is the run being read. *)
Fixpoint split_from (w s : string) : list string :=
  match s with
  | EmptyString => match w with EmptyString => [] | _ => [w] end
  | String c s' =>
      if isspace c
      then match w with
           | EmptyString => split_from EmptyString s'
           | _ => w :: split_from EmptyString s'
           end
      else split_from (w ++ String c EmptyString) s'
  end.

Definition split (s : string) : list string := split_from EmptyString s.

(** [bool(s)]: a text is true when it is not empty. *)
Definition truthy (s : string) : bool :=
  match s with EmptyString => false | _ => true end.

(** [any(f(w) for w in ws)] *)
Definition any {A} (f : A -> bool) (ws : list A) : bool := existsb f ws.

(** [a < b] on text: code point by code point, a proper prefix is smaller. *)
Fixpoint str_ltb (a b : string) : bool :=
  match a, b with
  | _, EmptyString => false
  | EmptyString, String _ _ => true
  | String x a', String y b' =>
      (nat_of_ascii x <? nat_of_ascii y)
      || ((nat_of_ascii x =? nat_of_ascii y) && str_ltb a' b')
  end.

End Py.

(* ------------------------------------------------------------------ *)
(** ** Stable sorting

    [list.sort] and [sorted] are stable, also with [reverse=True]; the
    outcome of a stable sort is fixed by the order alone, so insertion from
    the right stands for them.  [before y x] says that [y] has to come
    strictly before [x]. *)

Section StableSort.
Context {A : Type}.
Variable before : A -> A -> bool.

Fixpoint insert (x : A) (l : list A) : list A :=
  match l with
  | [] => [x]
  | y :: l' => if before y x then y :: insert x l' else x :: l
  end.

Fixpoint stable_sort (l : list A) : list A :=
  match l with
  | [] => []
  | x :: l' => insert x (stable_sort l')
  end.

(** [x] may stand in front of [y]. *)
Definition may_precede (x y : A) : Prop := before y x = false.
End StableSort.

(* ------------------------------------------------------------------ *)
(** ** [difflib]: [SequenceMatcher] and [get_close_matches] *)

Module difflib.

Definition seq_of (s : string) : list ascii := list_ascii_of_string s.

Section SequenceMatcher.
(** [SequenceMatcher(None, a, b)], with [autojunk] left at [True]. *)
Variables a b : list ascii.

Definition at_ (l : list ascii) (i : nat) : ascii := nth i l Ascii.zero.

(** [__chain_b]: the places of [c] in [b], in increasing order. *)
Fixpoint indices_from (j : nat) (l : list ascii) (c : ascii) : list nat :=
  match l with
  | [] => []
  | x :: l' =>
      if Ascii.eqb x c then j :: indices_from (S j) l' c
      else indices_from (S j) l' c
  end.

(** [__chain_b]: with 200 elements or more, an element met more than
    [n // 100 + 1] times is popular and loses its entry of [b2j]. *)
Definition popular (c : ascii) : bool :=
  let n := List.length b in
  (200 <=? n) && (n / 100 + 1 <? count_occ ascii_dec b c).

(** [b2j.get(c, nothing)] *)
Definition b2j (c : ascii) : list nat :=
  if popular c then [] else indices_from 0 b c.

(** The running best of [find_longest_match]: [(besti, bestj, bestsize)]. *)
Definition Match : Type := (nat * nat * nat)%type.

(** The inner loop of [find_longest_match], over the places [js] of
    [a[i]] in [b]; a dictionary of lengths is a function that is 0 where
    the dictionary has no key. *)
Fixpoint scan_js (blo bhi i : nat) (j2len : nat -> nat) (js : list nat)
    (newj2len : nat -> nat) (best : Match) : (nat -> nat) * Match :=
  match js with
  | [] => (newj2len, best)
  | j :: js' =>
      if j <? blo then scan_js blo bhi i j2len js' newj2len best
      else if bhi <=? j then (newj2len, best)
      else
        let k := (match j with 0 => 0 | S j' => j2len j' end) + 1 in
        let newj2len' := fun x => if x =? j then k else newj2len x in
        let '(besti, bestj, bestsize) := best in
        let best' := if bestsize <? k then (i + 1 - k, j + 1 - k, k) else best in
        scan_js blo bhi i j2len js' newj2len' best'
  end.

(** The outer loop, over [range(alo, ahi)]. *)
Fixpoint scan_is (blo bhi : nat) (is_ : list nat) (j2len : nat -> nat)
    (best : Match) : Match :=
  match is_ with
  | [] => best
  | i :: is' =>
      let '(newj2len, best') :=
        scan_js blo bhi i j2len (b2j (at_ a i)) (fun _ => 0) best in
      scan_is blo bhi is' newj2len best'
  end.

(** [while besti > alo and bestj > blo and a[besti-1] == b[bestj-1]]
    (no element is junk: [isjunk] is [None]). *)
Fixpoint extend_left (alo blo besti bestj bestsize : nat) : Match :=
  match besti with
  | 0 => (besti, bestj, bestsize)
  | S i' =>
      if (alo <? besti) && (blo <? bestj)
         && Ascii.eqb (at_ a i') (at_ b (bestj - 1))
      then extend_left alo blo i' (bestj - 1) (bestsize + 1)
      else (besti, bestj, bestsize)
  end.

(** [while besti+bestsize < ahi and bestj+bestsize < bhi and
    a[besti+bestsize] == b[bestj+bestsize]]; [room] is what is left of
    [a] behind the match, which bounds the number of turns. *)
Fixpoint extend_right (room ahi bhi besti bestj bestsize : nat) : nat :=
  match room with
  | 0 => bestsize
  | S room' =>
      if (besti + bestsize <? ahi) && (bestj + bestsize <? bhi)
         && Ascii.eqb (at_ a (besti + bestsize)) (at_ b (bestj + bestsize))
      then extend_right room' ahi bhi besti bestj (bestsize + 1)
      else bestsize
  end.

(** [find_longest_match(alo, ahi, blo, bhi)]; the two loops over junk
    elements never turn, [bjunk] being empty. *)
Definition find_longest_match (alo ahi blo bhi : nat) : Match :=
  let '(besti, bestj, bestsize) :=
    scan_is blo bhi (seq alo (ahi - alo)) (fun _ => 0) (alo, blo, 0) in
  let '(besti, bestj, bestsize) :=
    extend_left alo blo besti bestj bestsize in
  (besti, bestj,
   extend_right (ahi - (besti + bestsize)) ahi bhi besti bestj bestsize).

(** [get_matching_blocks], in the order of the final [sort()]: the
    longest match of the window, then the windows left and right of it.
    Every call takes at least one element of [a] out of the windows, so
    [fuel] above the width of the window is never used up. *)
Fixpoint blocks (fuel alo ahi blo bhi : nat) : list Match :=
  match fuel with
  | 0 => []
  | S fuel' =>
      let '(i, j, k) := find_longest_match alo ahi blo bhi in
      if k =? 0 then []
      else
        (if (alo <? i) && (blo <? j) then blocks fuel' alo i blo j else [])
        ++ (i, j, k)
        :: (if (i + k <? ahi) && (j + k <? bhi)
            then blocks fuel' (i + k) ahi (j + k) bhi else [])
  end.

Definition get_matching_blocks : list Match :=
  blocks (S (List.length a)) 0 (List.length a) 0 (List.length b).

(** [sum(triple[-1] for triple in self.get_matching_blocks())]; joining
    adjacent blocks and the closing [(la, lb, 0)] leave the sum as it is. *)
Definition matches : nat :=
  list_sum (map (fun m : Match => snd m) get_matching_blocks).

(** [_calculate_ratio(matches, length)] *)
Definition calculate_ratio (m len : nat) : Q :=
  match len with
  | 0 => 1%Q
  | _ => (Z.of_nat (2 * m) # Pos.of_nat len)%Q
  end.

(** [ratio()] *)
Definition ratio : Q := calculate_ratio matches (List.length a + List.length b).

(** The loop of [quick_ratio()]: [avail] says how many more times an
    element of [b] may still be matched. *)
Fixpoint quick_loop (l : list ascii) (avail : ascii -> option Z) (m : nat) : nat :=
  match l with
  | [] => m
  | elt :: l' =>
      let numb := match avail elt with
                  | Some n => n
                  | None => Z.of_nat (count_occ ascii_dec b elt)
                  end in
      let avail' := fun c => if Ascii.eqb c elt then Some (numb - 1)%Z else avail c in
      quick_loop l' avail' (if (0 <? numb)%Z then m + 1 else m)
  end.

Definition quick_matches : nat := quick_loop a (fun _ => None) 0.

(** [quick_ratio()] *)
Definition quick_ratio : Q := calculate_ratio quick_matches (List.length a + List.length b).

(** [real_quick_ratio()] *)
Definition real_quick_ratio : Q :=
  calculate_ratio (Nat.min (List.length a) (List.length b)) (List.length a + List.length b).
End SequenceMatcher.

(** [x >= cutoff] on ratios *)
Definition ge_cutoff (x cutoff : Q) : bool := Qle_bool cutoff x.

(** The scored words of [get_close_matches]: [s.set_seq2(word)], then for
    every [x], [s.set_seq1(x)] and the three tests, cheapest first. *)
Definition scored (word : string) (cutoff : Q) (possibilities : list string)
    : list (Q * string) :=
  flat_map (fun x =>
    let sa := seq_of x in
    let sb := seq_of word in
    if ge_cutoff (real_quick_ratio sa sb) cutoff
       && ge_cutoff (quick_ratio sa sb) cutoff
       && ge_cutoff (ratio sa sb) cutoff
    then [(ratio sa sb, x)] else []) possibilities.

(** [t1 > t2] on pairs [(score, x)]: by score, then by the text. *)
Definition pair_gt (t1 t2 : Q * string) : bool :=
  negb (Qle_bool (fst t1) (fst t2))
  || (Qeq_bool (fst t1) (fst t2) && Py.str_ltb (snd t2) (snd t1)).

(** [heapq.nlargest(n, result)], that is [sorted(result, reverse=True)[:n]]. *)
Definition nlargest (n : nat) (result : list (Q * string)) : list (Q * string) :=
  firstn n (stable_sort pair_gt result).

(** [get_close_matches(word, possibilities, n, cutoff)], for [n > 0] and
    [0.0 <= cutoff <= 1.0] (the only call has [n=3] and [cutoff=0.4]). *)
Definition get_close_matches (word : string) (possibilities : list string)
    (n : nat) (cutoff : Q) : list string :=
  map snd (nlargest n (scored word cutoff possibilities)).

End difflib.

(* ------------------------------------------------------------------ *)
(** ** pandas: cells, rows and frames *)

(** What Python raises on the paths modelled here. *)
Inductive exn : Type :=
| KeyError (label : string)      (* [df[label]] on a frame without that column *)
| TypeError                      (* [None[label]]: None is not subscriptable *)
| TypeError_len                  (* [len(x)] on a value that has no length *)
| TypeError_order                (* [x < y] on two values that have no order *)
| AttributeError                 (* [x.strip()], [x.get(...)] on a value without it *)
| ExcelError.                    (* [pd.read_excel] could not read the file *)

(** A cell of the sheet as [pd.read_excel] delivers it.
    - [NaN] and [NaT] are the missing cell, of a column of texts or numbers
      and of a column of dates.
    - [Text s] is a text.
    - [Other family key shown] is any other value: a number, a boolean, a
      date, a time of day.  Python tells of it what the three fields say.
      [family] is the kind of the value: two values of one family are
      compared by their [key] (numbers and booleans are one family, their
      key is the number, so that [1 == 1.0 == True]; dates are another, their
      key is the instant); values of two families are never equal and have
      no order, nor with a text.  [shown] is what [str] makes of the value. *)
Inductive cell : Type :=
| NaN
| NaT
| Text (s : string)
| Other (family : nat) (key : Q) (shown : string).

(** [str(v)]; NaN prints as the three letters [nan]. *)
Definition str (v : cell) : string :=
  match v with
  | NaN => "nan"
  | NaT => "NaT"
  | Text s => s
  | Other _ _ shown => shown
  end.

(** [pd.isna(v)] *)
Definition isna (v : cell) : bool :=
  match v with
  | NaN | NaT => true
  | _ => false
  end.

(** [v == w] on two values *)
Definition value_eqb (v w : cell) : bool :=
  match v, w with
  | Text s, Text t => String.eqb s t
  | Other f k _, Other g l _ => (f =? g) && Qeq_bool k l
  | _, _ => false
  end.

(** [v < w] on two values of one family: texts by code points, the others
    by their key. *)
Definition value_ltb (v w : cell) : bool :=
  match v, w with
  | Text s, Text t => Py.str_ltb s t
  | Other _ k _, Other _ l _ => negb (Qle_bool l k)
  | _, _ => false
  end.

(** Two values that [<] can compare. *)
Definition same_family (v w : cell) : bool :=
  match v, w with
  | Text _, Text _ => true
  | Other f _ _, Other g _ _ => f =? g
  | _, _ => false
  end.

(** A row gives a cell for every label of its frame. *)
Definition Series : Type := string -> cell.

Record DataFrame : Type := {
  columns : list string;
  rows : list Series
}.

Definition has_column (d : DataFrame) (label : string) : bool :=
  existsb (String.eqb label) (columns d).

(** [row.get(label, default)] for a row of [d] *)
Definition get (d : DataFrame) (row : Series) (label : string) (default : cell) : cell :=
  if has_column d label then row label else default.

(** [d[label]] *)
Definition getitem (d : DataFrame) (label : string) : exn + list cell :=
  if has_column d label then inr (map (fun row => row label) (rows d))
  else inl (KeyError label).

(** [len(d)] *)
Definition len (d : DataFrame) : Z := Z.of_nat (List.length (rows d)).

(** [col.dropna()] *)
Definition dropna (col : list cell) : list cell :=
  filter (fun v => negb (isna v)) col.

(** [col.unique()]: every value once, where it comes first. *)
Fixpoint unique_from (seen : list cell) (l : list cell) : list cell :=
  match l with
  | [] => []
  | v :: l' =>
      if existsb (value_eqb v) seen then unique_from seen l'
      else v :: unique_from (v :: seen) l'
  end.

Definition unique (l : list cell) : list cell := unique_from [] l.

(** [col.nunique()]: a missing cell is not counted. *)
Definition nunique (col : list cell) : Z :=
  Z.of_nat (List.length (unique (dropna col))).

(** [v == name] for a cell and a text; a missing cell equals nothing, and
    no other value equals a text. *)
Definition cell_eqb (v : cell) (name : string) : bool :=
  match v with
  | Text s => String.eqb s name
  | _ => false
  end.

(** The texts of a list of values, when all of them are texts. *)
Fixpoint texts (l : list cell) : option (list string) :=
  match l with
  | [] => Some []
  | Text s :: l' =>
      match texts l' with
      | Some names => Some (s :: names)
      | None => None
      end
  | _ :: _ => None
  end.

(** [get_close_matches(word, possibilities, n, cutoff)] on the values of a
    column: each value is made the first sequence in its turn, and [len] of
    a value that is no text raises. *)
Definition close_matches (word : string) (possibilities : list cell)
    (n : nat) (cutoff : Q) : exn + list string :=
  match texts possibilities with
  | Some names => inr (difflib.get_close_matches word names n cutoff)
  | None => inl TypeError_len
  end.

(** [sorted(values)] for values that are not missing, as [dropna] leaves
    them: ascending; comparing values of two families raises. *)
Definition sorted (values : list cell) : exn + list cell :=
  match values with
  | [] => inr []
  | v :: _ =>
      if forallb (same_family v) values then inr (stable_sort value_ltb values)
      else inl TypeError_order
  end.

(** [d[d[label] == name]] for a frame that has the column: its rows, in
    order, whose cell under [label] is [name]. *)
Definition select (d : DataFrame) (label name : string) : list Series :=
  filter (fun row => cell_eqb (row label) name) (rows d).

(* ------------------------------------------------------------------ *)
(** ** Programs that take the lock *)

(** [WithLock k] is a [with self._lock:] block that reads [self.df] and goes
    on as [k] says; between two such blocks other threads may run. *)
Inductive Prog (A : Type) : Type :=
| Ret (x : A)
| Raise (e : exn)
| WithLock (k : option DataFrame -> Prog A).

Arguments Ret {A} x.
Arguments Raise {A} e.
Arguments WithLock {A} k.

(** The program runs alone: every block reads the same slot. *)
Fixpoint run {A} (slot : option DataFrame) (p : Prog A) : exn + A :=
  match p with
  | Ret x => inr x
  | Raise e => inl e
  | WithLock k => run slot (k slot)
  end.

(** The program runs among other threads: before each of its blocks, the
    tables of [hd installs] are installed, one after the other. *)
Fixpoint run_among {A} (installs : list (list DataFrame)) (slot : option DataFrame)
    (p : Prog A) : exn + A :=
  match p with
  | Ret x => inr x
  | Raise e => inl e
  | WithLock k =>
      let slot' := fold_left (fun _ d => Some d) (hd [] installs) slot in
      run_among (tl installs) slot' (k slot')
  end.

(* ------------------------------------------------------------------ *)
(** ** [ExamSupportBot] *)

Record ExamSupportBot : Type := {
  df : option DataFrame;
  _last_refresh : option string
}.

(** [ExamSupportBot()] *)
Definition init : ExamSupportBot := {| df := None; _last_refresh := None |}.

(** One entry of the list that [search_issue] returns. *)
Record Result : Type := {
  score : Z;
  issue : cell;
  description : cell;
  solution : string
}.

Definition ISSUE : string := "Issue".
Definition DESCRIPTION : string := "Description of Issues Reported".
Definition SOLUTIONS : string := "Solutions".

Section Search.
Local Open Scope Z_scope.

(** Lines 133-137: the score of one row, [q] being the query in lower
    case and stripped, [issue] and [description] the two texts in lower
    case. *)
Definition row_score (q issue description : string) : Z :=
  let score := 0 in
  let score :=
    if Py.contains q issue then score + 100
    else if Py.any (fun w => Py.contains w issue) (Py.split q) then score + 50
    else score in
  let score :=
    if Py.contains q description then score + 75
    else if Py.any (fun w => Py.contains w description) (Py.split q) then score + 30
    else score in
  score.

(** Lines 129-145: what one turn of the first loop appends to [results]. *)
Definition visit (d : DataFrame) (q : string) (row : Series) : list Result :=
  let issue := Py.lower (str (get d row ISSUE (Text ""))) in
  let description := Py.lower (str (get d row DESCRIPTION (Text ""))) in
  let solution := str (get d row SOLUTIONS (Text "")) in
  let score := row_score q issue description in
  if 0 <? score
  then [{| score := score;
           issue := get d row ISSUE (Text "");
           description := get d row DESCRIPTION (Text "");
           solution := solution |}]
  else [].

(** Lines 128-145: [for _, row in df.iterrows()]. *)
Definition scan (d : DataFrame) (q : string) : list Result :=
  flat_map (visit d q) (rows d).

(** Line 147: [results.sort(key=lambda x: x["score"], reverse=True)]. *)
Definition by_score (y x : Result) : bool := score x <? score y.

Definition sort_results (results : list Result) : list Result :=
  stable_sort by_score results.

(** Lines 155-160: one entry of the second loop. *)
Definition fallback_result (d : DataFrame) (row : Series) : Result :=
  {| score := 25;
     issue := get d row ISSUE (Text "");
     description := get d row DESCRIPTION (Text "");
     solution := str (get d row SOLUTIONS (Text "")) |}.

(** Lines 152-160: [for match in ...]; [df["Issue"]] is looked up once
    per match, and raises when the snapshot has no such column. *)
Fixpoint expand (d : DataFrame) (close : list string) : exn + list Result :=
  match close with
  | [] => inr []
  | name :: close' =>
      match getitem d ISSUE with
      | inl e => inl e
      | inr _ =>
          match expand d close' with
          | inl e => inl e
          | inr rest => inr (map (fallback_result d) (select d ISSUE name) ++ rest)
          end
      end
  end.

(** Line 151: [self.df["Issue"].dropna().unique().tolist()], from the
    column on. *)
Definition issue_list (col : list cell) : list cell := unique (dropna col).

(** Line 162: [results[:5] or None]. *)
Definition capped (results : list Result) : option (list Result) :=
  match firstn 5 results with
  | [] => None
  | top => Some top
  end.

(** [search_issue(self, query)] *)
Definition search_issue (query : string) : Prog (option (list Result)) :=
  WithLock (fun df =>
    match df with
    | None => Ret None
    | Some df =>
        if negb (Py.truthy (Py.strip query)) then Ret None
        else
          let q := Py.strip (Py.lower query) in
          let results := sort_results (scan df q) in
          match results with
          | _ :: _ => Ret (capped results)
          | [] =>
              WithLock (fun self_df =>
                match self_df with
                | None => Raise TypeError
                | Some self_df =>
                    match getitem self_df ISSUE with
                    | inl e => Raise e
                    | inr col =>
                        match close_matches query (issue_list col) 3 (4 # 10) with
                        | inl e => Raise e
                        | inr close =>
                            match expand df close with
                            | inl e => Raise e
                            | inr results => Ret (capped results)
                            end
                        end
                    end
                end)
          end
    end).

(** [total_records] *)
Definition total_records (bot : ExamSupportBot) : Z :=
  match df bot with
  | Some d => len d
  | None => 0
  end.

(** [unique_issues] *)
Definition unique_issues (bot : ExamSupportBot) : exn + Z :=
  match df bot with
  | Some d =>
      match getitem d ISSUE with
      | inl e => inl e
      | inr col => inr (nunique col)
      end
  | None => inr 0
  end.

(** [ready] *)
Definition ready (bot : ExamSupportBot) : bool :=
  match df bot with Some _ => true | None => false end.

(** [last_refresh]: [self._last_refresh or "-"] (the dash of the source
    written in ASCII); an empty text counts as none. *)
Definition last_refresh (bot : ExamSupportBot) : string :=
  match _last_refresh bot with
  | Some t => if Py.truthy t then t else "-"
  | None => "-"
  end.
End Search.

(* ------------------------------------------------------------------ *)
(** ** Download and refresh *)

(** What [requests.get] answered. *)
Record Response : Type := {
  status_code : Z;
  content_type : string;
  content_length : Z
}.

(** What lies outside the process during one [refresh]: the answer of the
    server ([None]: [requests.get] or the writing of the file raised), what
    [pd.read_excel] makes of the file, and the clock. *)
Record World : Type := {
  response : option Response;
  read_excel : exn + DataFrame;
  clock : string
}.

(** [build_download_url(share_link)] *)
Definition build_download_url (share_link : string) : string :=
  if negb (Py.truthy share_link) then ""
  else if Py.contains "download=1" share_link then share_link
  else
    let sep := if Py.contains "?" share_link then "&" else "?" in
    share_link ++ sep ++ "download=1".

(** [download_excel(share_link, dest_path)] *)
Definition download_excel (share_link : string) (w : World) : bool :=
  let url := build_download_url share_link in
  if negb (Py.truthy url) then false
  else
    match response w with
    | None => false
    | Some resp =>
        if (status_code resp =? 200)%Z then
          if Py.contains "html" (Py.lower (content_type resp))
             && (content_length resp <? 100000)%Z
          then false
          else true
        else false
    end.

(** [load_from_path(self, path)]: the new state and how the call ends.  The
    closing [print] reads [df['Issue']], after the table is installed. *)
Definition load_from_path (bot : ExamSupportBot) (w : World) : ExamSupportBot * (exn + unit) :=
  match read_excel w with
  | inl e => (bot, inl e)
  | inr d =>
      let bot' := {| df := Some d; _last_refresh := Some (clock w) |} in
      match getitem d ISSUE with
      | inl e => (bot', inl e)
      | inr _ => (bot', inr tt)
      end
  end.

(** The dictionary that [refresh] returns. *)
Inductive Status : Type :=
| Success (total_records : Z) (unique_issues : Z) (last_refresh : option string)
| Failure (message : string).

(** The message of a failed refresh (its dash written in ASCII). *)
Definition DOWNLOAD_FAILED : string :=
  "Download failed - check ONEDRIVE_SHARE_LINK env var.".

(** [refresh(self)], with [ONEDRIVE_SHARE_LINK] as [share_link]. *)
Definition refresh (share_link : string) (bot : ExamSupportBot) (w : World)
    : ExamSupportBot * (exn + Status) :=
  let ok := download_excel share_link w in
  if ok then
    match load_from_path bot w with
    | (bot', inl e) => (bot', inl e)
    | (bot', inr _) =>
        match unique_issues bot' with
        | inl e => (bot', inl e)
        | inr u => (bot', inr (Success (total_records bot') u (_last_refresh bot')))
        end
    end
  else (bot, inr (Failure DOWNLOAD_FAILED)).

(* ------------------------------------------------------------------ *)
(** ** The notions the statements are written in *)

(** [p] occurs in [s]: some text before, [p], some text after. *)
Definition Substring (p s : string) : Prop :=
  exists pre post : string, s = (pre ++ p ++ post)%string.

(** One field's share of the score, as the rule reads: [full] when the
    whole query occurs in the text, otherwise [part] when one of its words
    does, otherwise nothing. *)
Definition tier (full part : Z) (q text : string) (t : Z) : Prop :=
  (Substring q text /\ t = full)
  \/ (~ Substring q text
      /\ (exists w, In w (Py.split q) /\ Substring w text) /\ t = part)
  \/ (~ Substring q text
      /\ (forall w, In w (Py.split q) -> ~ Substring w text) /\ t = 0%Z).

(** [l1] is the beginning of [l2]. *)
Definition is_prefix {A} (l1 l2 : list A) : Prop := exists rest, l2 = l1 ++ rest.

(** The entries of a result list that carry the score [s], in their order. *)
Definition with_score (s : Z) (l : list Result) : list Result :=
  filter (fun r => (score r =? s)%Z) l.

(** Scores never go up along the list. *)
Definition descending (l : list Result) : Prop :=
  StronglySorted (fun x y => (score y <= score x)%Z) l.

(** What [search_issue] has in [results] before the cut to five entries, for
    a thread that runs alone. *)
Definition found (d : DataFrame) (query : string) : exn + list Result :=
  match sort_results (scan d (Py.strip (Py.lower query))) with
  | (_ :: _) as results => inr results
  | [] =>
      match getitem d ISSUE with
      | inl e => inl e
      | inr col =>
          match close_matches query (issue_list col) 3 (4 # 10) with
          | inl e => inl e
          | inr close => expand d close
          end
      end
  end.

(** What the second loop of [search_issue] collects for the names [close]
    on a frame with an issue column. *)
Definition expansion (d : DataFrame) (close : list string) : list Result :=
  flat_map (fun name => map (fallback_result d) (select d ISSUE name)) close.

(** [search_issue] by a thread that runs alone on the table of [bot]. *)
Definition search (bot : ExamSupportBot) (query : string) : exn + option (list Result) :=
  run (df bot) (search_issue query).

(** A frame with the three columns of the sheet. *)
Definition sheet (l : list (cell * cell * cell)) : DataFrame :=
  {| columns := [ISSUE; DESCRIPTION; SOLUTIONS];
     rows := map (fun '(i, d, s) => fun label =>
                    if String.eqb label ISSUE then i
                    else if String.eqb label DESCRIPTION then d
                    else if String.eqb label SOLUTIONS then s
                    else NaN) l |}.

(** *** Notions for the matching blocks *)

(** Every character: the code points 0..255. *)
Definition all_ascii : list ascii := map ascii_of_nat (seq 0 256).

(** [sum(f(c) for c in all characters)] *)
Definition sum_chars (f : ascii -> nat) : nat := list_sum (map f all_ascii).

(** How many characters two texts have in common, counted with
    repetition: the size of the largest pairing of equal characters. *)
Definition common (a b : list ascii) : nat :=
  sum_chars (fun c => Nat.min (count_occ ascii_dec a c) (count_occ ascii_dec b c)).

(** [l[lo:hi]] *)
Definition slice (l : list ascii) (lo hi : nat) : list ascii :=
  firstn (hi - lo) (skipn lo l).

(** [(i, j, k)] is a match inside the window: [a[i:i+k] == b[j:j+k]],
    within [a[alo:ahi]] and [b[blo:bhi]]. *)
Definition in_window (a b : list ascii) (alo ahi blo bhi : nat) (m : difflib.Match) : Prop :=
  let '(i, j, k) := m in
  alo <= i /\ i + k <= ahi /\ blo <= j /\ j + k <= bhi
  /\ forall t, t < k -> difflib.at_ a (i + t) = difflib.at_ b (j + t).

(** A run of [k] equal characters that ends at [a[i]] and [b[j]]. *)
Definition ends_at (a b : list ascii) (alo ahi blo bhi i j k : nat) : Prop :=
  alo <= i < ahi /\ blo <= j < bhi /\ k <= i + 1 - alo /\ k <= j + 1 - blo
  /\ forall t, t < k -> difflib.at_ a (i - t) = difflib.at_ b (j - t).

(** The similarity of an issue name to the query, as [get_close_matches]
    computes it: the name is the first sequence, the query the second. *)
Definition similarity (query name : string) : Q :=
  difflib.ratio (difflib.seq_of name) (difflib.seq_of query).

(** No two values of the list are equal. *)
Definition distinct (l : list cell) : Prop :=
  ForallOrdPairs (fun v w => value_eqb v w = false) l.

(** A table as [pd.read_excel] delivers it.  With the handling of NA values
    that it has by default, the reader takes an empty cell for a missing one:
    no text that it delivers is empty. *)
Definition read_by_pandas (d : DataFrame) : Prop :=
  forall row label, In row (rows d) -> In label (columns d) -> row label <> Text "".

(** *** Sample sheets *)

Definition login_table : DataFrame :=
  sheet [(Text "Logout Issue", Text "cannot log out", Text "close the browser");
         (Text "Login Issue", Text "cannot log in", Text "reset the password");
         (Text "Audio Problem", Text "login page has no sound", Text "check the speakers");
         (Text "Login Issue", Text "password rejected", Text "check caps lock")].

Definition audio_table : DataFrame :=
  sheet [(Text "Audio Problem", Text "no sound", Text "check the speakers")].

(** A sheet with a row whose issue cell is empty, and a frame whose file
    had no issue column at all. *)
Definition blank_issue_table : DataFrame :=
  sheet [(NaN, Text "screen stays black", NaN)].

Definition no_issue_column : DataFrame :=
  {| columns := [DESCRIPTION; SOLUTIONS];
     rows := [fun label => if String.eqb label DESCRIPTION then Text "screen stays black"
                           else if String.eqb label SOLUTIONS then Text "restart"
                           else NaN] |}.

(** The table before and after a refresh that renames an issue. *)
Definition old_table : DataFrame :=
  sheet [(Text "Webcam Issue", Text "no picture", Text "allow the camera")].

Definition new_table : DataFrame :=
  sheet [(Text "Webcam Mic Issue", Text "no picture or sound", Text "allow camera and microphone")].

(** A sheet whose issue column holds texts, an empty cell and a number. *)
Definition mixed_table : DataFrame :=
  sheet [(Text "Login Issue", Text "cannot log in", Text "reset the password");
         (NaN, Text "screen stays black", NaN);
         (Text "login issue", Text "password rejected", Text "check caps lock");
         (Text "Login Issue", Text "account locked", Text "wait ten minutes");
         (Other 0 (404 # 1) "404", Text "page not found", Text "check the address")].

(** A sheet with several records under one issue name. *)
Definition webcam_table : DataFrame :=
  sheet [(Text "Webcam Issue", Text "no picture", Text "allow the camera");
         (Text "Audio Problem", Text "no sound", Text "check the speakers");
         (Text "Webcam Issue", Text "black image", Text "close other programs");
         (Text "Webcam Issue", Text "image freezes", Text "lower the resolution");
         (Text "Webcam Issue", Text "device not found", Text "plug it in again")].

(** A server that hands out a file, and one whose file is not a workbook. *)
Definition file_response : Response :=
  {| status_code := 200;
     content_type := "application/octet-stream";
     content_length := 20480 |}.

Definition unreadable_file (t : string) : World :=
  {| response := Some file_response; read_excel := inl ExcelError; clock := t |}.

Definition readable_file (d : DataFrame) (t : string) : World :=
  {| response := Some file_response; read_excel := inr d; clock := t |}.

(** The two counts of a status, the time left out. *)
Definition counts (r : exn + Status) : exn + option (Z * Z) :=
  match r with
  | inl e => inl e
  | inr (Success n u _) => inr (Some (n, u))
  | inr (Failure _) => inr None
  end.

(* ------------------------------------------------------------------ *)
(** ** The rest of the bot, the start-up and the routes *)

(** [load_from_bytes(self, data)]; its closing [print] reads [len(df)] only. *)
Definition load_from_bytes (bot : ExamSupportBot) (w : World) : ExamSupportBot * (exn + unit) :=
  match read_excel w with
  | inl e => (bot, inl e)
  | inr d => ({| df := Some d; _last_refresh := Some (clock w) |}, inr tt)
  end.

(** [get_all_issues(self)] *)
Definition get_all_issues (bot : ExamSupportBot) : exn + list cell :=
  match df bot with
  | Some d =>
      match getitem d ISSUE with
      | inl e => inl e
      | inr col => sorted (issue_list col)
      end
  | None => inr []
  end.

(** [startup_load()], on the bot [bot], with [ONEDRIVE_SHARE_LINK] as
    [share_link].  [cache] is the local file: [None] when there is none,
    else what reading it gives ([read_excel] and [clock] of that moment);
    [w] is the world of the download.  An exception of the first load is
    caught and printed, one of the second load is not. *)
Definition startup_load (share_link : string) (cache : option World) (w : World)
    (bot : ExamSupportBot) : ExamSupportBot * (exn + unit) :=
  let '(bot1, loaded) :=
    match cache with
    | Some c =>
        match load_from_path bot c with
        | (bot', inr _) => (bot', true)
        | (bot', inl _) => (bot', false)
        end
    | None => (bot, false)
    end in
  if loaded then (bot1, inr tt)
  else if Py.truthy share_link then
    if download_excel share_link w then load_from_path bot1 w
    else (bot1, inr tt)
  else (bot1, inr tt).

(** The first turns of [_refresh_loop], one world per turn: [bot.refresh()]
    again and again, until a turn raises, which ends the thread. *)
Fixpoint refresh_loop (share_link : string) (turns : list World) (bot : ExamSupportBot)
    : ExamSupportBot * option exn :=
  match turns with
  | [] => (bot, None)
  | w :: turns' =>
      match refresh share_link bot w with
      | (bot', inl e) => (bot', Some e)
      | (bot', inr _) => refresh_loop share_link turns' bot'
      end
  end.

(** What the route [/api/search] answers: the error 400, the solutions
    with their count, or the message that nothing was found. *)
Inductive SearchReply : Type :=
| NoQueryProvided
| Solutions (count : Z) (results : list Result)
| NoSolutionsFound.

(** What [request.get_json()] hands to the route: a JSON value as Python's
    [json] reads it.  [JNonFinite] stands for [NaN], [Infinity] and
    [-Infinity], which Python's reader accepts; the members of an object
    are kept in the order of the text, with their repetitions. *)
#[warnings="-register-all"]
Inductive json : Type :=
| JNull
| JBool (b : bool)
| JNumber (q : Q)
| JNonFinite
| JString (s : string)
| JArray (items : list json)
| JObject (members : list (string * json)).

(** [bool(j)] for the Python value that [j] is read as: [None], [False],
    zero and what is empty are false. *)
Definition json_truthy (j : json) : bool :=
  match j with
  | JNull => false
  | JBool b => b
  | JNumber q => negb (Qeq_bool q 0%Q)
  | JNonFinite => true
  | JString s => Py.truthy s
  | JArray items => match items with [] => false | _ :: _ => true end
  | JObject members => match members with [] => false | _ :: _ => true end
  end.

(** [d.get(key, default)] for the dict read from the members of an object:
    of a key written more than once the last value stays. *)
Fixpoint dict_get (key : string) (members : list (string * json)) (default : json) : json :=
  match members with
  | [] => default
  | (k, v) :: rest =>
      if String.eqb k key then dict_get key rest v else dict_get key rest default
  end.

(** [bot.search_issue(query)] for the value the route passes on.  Of a
    value that is not a [str] the method asks [query.strip()], which such
    a value does not have; it does so after the test [df is None]. *)
Definition search_value (bot : ExamSupportBot) (query : json) : exn + option (list Result) :=
  match query with
  | JString s => search bot s
  | _ =>
      match df bot with
      | None => inr None
      | Some _ => inl AttributeError
      end
  end.

(** [search()], the route; [body] is what [request.get_json()] returned.
    [data.get] exists on a dict only. *)
Definition api_search (bot : ExamSupportBot) (body : json) : exn + SearchReply :=
  let data := if json_truthy body then body else JObject [] in
  match data with
  | JObject members =>
      let query := dict_get "query" members (JString "") in
      if negb (json_truthy query) then inr NoQueryProvided
      else
        match search_value bot query with
        | inl e => inl e
        | inr (Some (r :: l)) => inr (Solutions (Z.of_nat (List.length (r :: l))) (r :: l))
        | inr _ => inr NoSolutionsFound
        end
  | _ => inl AttributeError
  end.

(** What the route [/api/status] answers. *)
Record StatusReply : Type := {
  status_ready : bool;
  status_total_records : Z;
  status_unique_issues : Z;
  status_last_refresh : string
}.

(** [status()], the route. *)
Definition api_status (bot : ExamSupportBot) : exn + StatusReply :=
  match unique_issues bot with
  | inl e => inl e
  | inr u =>
      inr {| status_ready := ready bot;
             status_total_records := total_records bot;
             status_unique_issues := u;
             status_last_refresh := last_refresh bot |}
  end.

(** *** Further notions *)

(** [r] is made of the cells of [row], as both loops of [search_issue]
    build their entries. *)
Definition built_from (d : DataFrame) (row : Series) (r : Result) : Prop :=
  issue r = get d row ISSUE (Text "")
  /\ description r = get d row DESCRIPTION (Text "")
  /\ solution r = str (get d row SOLUTIONS (Text "")).

(** The table and the time of its load go together: the bot has both or
    neither. *)
Definition in_step (bot : ExamSupportBot) : Prop :=
  df bot = None <-> _last_refresh bot = None.

(** Values in strictly ascending order. *)
Definition ascending_values (l : list cell) : Prop :=
  StronglySorted (fun v w => value_ltb v w = true) l.

(** Ascending without repetition. *)
Definition ascending (l : list string) : Prop :=
  StronglySorted (fun x y => Py.str_ltb x y = true) l.

(** The nine totals that the two tiers can add up to. *)
Definition possible_totals : list Z := [0; 30; 50; 75; 80; 100; 125; 130; 175]%Z.

(** A server that answers with an error page. *)
Definition error_page (code : Z) (t : string) : World :=
  {| response := Some {| status_code := code; content_type := "text/html";
                         content_length := 512 |};
     read_excel := inl ExcelError; clock := t |}.

(* ------------------------------------------------------------------ *)
(** * Properties *)

(** Splits a conjunction into its parts, and nothing else. *)
Ltac conjs := repeat match goal with |- _ /\ _ => split end.

(** ** Text *)

Lemma startswith_spec p s :
  Py.startswith p s = true <-> exists post, s = (p ++ post)%string.
Proof.
  revert s; induction p as [|a p IH]; intros s; simpl.
  - split; [intros _; now exists s | reflexivity].
  - destruct s as [|b s]; simpl.
    + split; [discriminate | intros [post H]; discriminate].
    + rewrite andb_true_iff, Ascii.eqb_eq, IH. split.
      * intros [-> [post ->]]. now exists post.
      * intros [post H]. injection H as -> ->. split; [reflexivity | now exists post].
Qed.

Lemma contains_spec p s : Py.contains p s = true <-> Substring p s.
Proof.
  unfold Substring. induction s as [|c s IH].
  - simpl. rewrite orb_false_r, startswith_spec. split.
    + intros [post H]. exists EmptyString, post. exact H.
    + intros [[|x pre] [post H]]; [now exists post | discriminate].
  - change (Py.contains p (String c s))
      with (Py.startswith p (String c s) || Py.contains p s).
    rewrite orb_true_iff, startswith_spec, IH. split.
    + intros [[post H] | [pre [post H]]].
      * exists EmptyString, post. exact H.
      * exists (String c pre), post. simpl. now rewrite H.
    + intros [[|x pre] [post H]].
      * left. now exists post.
      * right. simpl in H. injection H as -> ->. now exists pre, post.
Qed.

Lemma contains_false p s : Py.contains p s = false <-> ~ Substring p s.
Proof.
  rewrite <- contains_spec. destruct (Py.contains p s); split; intros; congruence.
Qed.

Lemma any_spec {A} (f : A -> bool) l :
  Py.any f l = true <-> exists w, In w l /\ f w = true.
Proof. unfold Py.any. apply existsb_exists. Qed.

Lemma any_false {A} (f : A -> bool) l :
  Py.any f l = false <-> forall w, In w l -> f w = false.
Proof.
  unfold Py.any. induction l as [|x l IH]; simpl.
  - split; [intros _ w [] | reflexivity].
  - rewrite orb_false_iff, IH. split.
    + intros [Hx Hl] w [<- | Hw]; auto.
    + intros H. split; [apply H; now left | intros w Hw; apply H; now right].
Qed.

(** ** The Matcher *)

Lemma tier_sound (full part : Z) (q text : string) :
  tier full part q text
    (if Py.contains q text then full
     else if Py.any (fun w => Py.contains w text) (Py.split q) then part
     else 0%Z).
Proof.
  unfold tier. destruct (Py.contains q text) eqn:Hq.
  - left. split; [now apply contains_spec | reflexivity].
  - apply contains_false in Hq.
    destruct (Py.any _ _) eqn:Hw.
    + right; left. apply any_spec in Hw. destruct Hw as [w [Hin Hc]].
      repeat split; trivial. exists w. split; [exact Hin | now apply contains_spec].
    + right; right. repeat split; trivial.
      intros w Hin. apply contains_false. revert w Hin. now apply any_false.
Qed.

Lemma row_score_sum q issue_text description_text :
  row_score q issue_text description_text =
  ((if Py.contains q issue_text then 100
    else if Py.any (fun w => Py.contains w issue_text) (Py.split q) then 50
    else 0)
   + (if Py.contains q description_text then 75
      else if Py.any (fun w => Py.contains w description_text) (Py.split q) then 30
      else 0))%Z.
Proof.
  unfold row_score.
  destruct (Py.contains q issue_text), (Py.contains q description_text);
    repeat match goal with |- context [Py.any ?f ?l] => destruct (Py.any f l) end;
    reflexivity.
Qed.

Lemma row_score_nonneg q i dsc : (0 <= row_score q i dsc)%Z.
Proof.
  rewrite row_score_sum.
  destruct (Py.contains q i), (Py.contains q dsc);
    repeat match goal with |- context [Py.any ?f ?l] => destruct (Py.any f l) end;
    lia.
Qed.

Lemma visit_cases d q row :
  let total := row_score q (Py.lower (str (get d row ISSUE (Text ""))))
                           (Py.lower (str (get d row DESCRIPTION (Text "")))) in
  (total = 0%Z /\ visit d q row = [])
  \/ ((0 < total)%Z
      /\ visit d q row =
         [{| score := total;
             issue := get d row ISSUE (Text "");
             description := get d row DESCRIPTION (Text "");
             solution := str (get d row SOLUTIONS (Text "")) |}]).
Proof.
  intros total. unfold visit. fold total.
  pose proof (row_score_nonneg q (Py.lower (str (get d row ISSUE (Text ""))))
                (Py.lower (str (get d row DESCRIPTION (Text ""))))) as Hnn.
  fold total in Hnn.
  destruct (0 <? total)%Z eqn:Hpos.
  - right. apply Z.ltb_lt in Hpos. now split.
  - left. apply Z.ltb_ge in Hpos. split; [lia | reflexivity].
Qed.

Lemma scan_positive d q r : In r (scan d q) -> (0 < score r)%Z.
Proof.
  unfold scan. rewrite in_flat_map. intros [row [_ Hin]].
  destruct (visit_cases d q row) as [[_ Hv] | [Hpos Hv]]; rewrite Hv in Hin.
  - destruct Hin.
  - destruct Hin as [<- | []]. exact Hpos.
Qed.

(** C1. The score of a record is the share of the issue field plus the
    share of the description field: 100 when the whole query (lower case,
    trimmed) occurs in the issue text, else 50 when one of its words does,
    else 0; 75, 30 or 0 in the same way for the description.  A record that
    totals 0 gives no candidate, any other record gives exactly one, which
    carries the total; so every candidate of the scan has a positive score. *)
Theorem matcher_score_is_sum_of_tiers (d : DataFrame) (query : string) (row : Series) :
  let q := Py.strip (Py.lower query) in
  let issue_text := Py.lower (str (get d row ISSUE (Text ""))) in
  let description_text := Py.lower (str (get d row DESCRIPTION (Text ""))) in
  exists ti td : Z,
    tier 100 50 q issue_text ti
    /\ tier 75 30 q description_text td
    /\ row_score q issue_text description_text = (ti + td)%Z
    /\ ((ti + td = 0)%Z <-> visit d q row = [])
    /\ ((0 < ti + td)%Z <-> exists r, visit d q row = [r] /\ score r = (ti + td)%Z)
    /\ (In row (rows d) -> forall r, In r (visit d q row) -> In r (scan d q))
    /\ (forall r, In r (scan d q) -> (0 < score r)%Z).
Proof.
  intros q issue_text description_text.
  eexists _, _. split; [apply tier_sound|]. split; [apply tier_sound|].
  split; [apply row_score_sum|].
  rewrite <- row_score_sum.
  subst issue_text description_text.
  destruct (visit_cases d q row) as [[H0 Hv] | [Hpos Hv]]; rewrite Hv.
  - split; [tauto|]. split.
    + split; [lia | intros [r [Hr _]]; discriminate].
    + split; [intros _ r [] | apply scan_positive].
  - split; [split; [lia | discriminate]|]. split.
    + split; [intros _; eexists; split; reflexivity | intros _; exact Hpos].
    + split; [|apply scan_positive].
      intros Hin r Hr. unfold scan. apply in_flat_map. exists row. split; trivial.
      now rewrite Hv.
Qed.

(** ** Stable sorting *)

Section StableSortFacts.
Context {A : Type}.
Variable before : A -> A -> bool.
Local Abbreviation may_precede := (may_precede before).

Hypothesis before_asym : forall x y, before x y = true -> before y x = false.
Hypothesis may_precede_trans :
  forall x y z, may_precede x y -> may_precede y z -> may_precede x z.

Lemma insert_perm x l : Permutation (insert before x l) (x :: l).
Proof.
  induction l as [|y l IH]; simpl; [reflexivity|].
  destruct (before y x); [|reflexivity].
  rewrite IH. apply perm_swap.
Qed.

Lemma stable_sort_perm l : Permutation (stable_sort before l) l.
Proof.
  induction l as [|x l IH]; simpl; [reflexivity|].
  rewrite insert_perm. now constructor.
Qed.

Lemma insert_sorted x l :
  StronglySorted may_precede l -> StronglySorted may_precede (insert before x l).
Proof.
  induction 1 as [|y l Hl IH Hy]; simpl.
  - repeat constructor.
  - destruct (before y x) eqn:Hyx.
    + constructor; [exact IH|].
      rewrite Forall_forall in *. intros z Hz.
      apply (Permutation_in _ (insert_perm x l)) in Hz.
      destruct Hz as [<- | Hz]; [now apply before_asym | now apply Hy].
    + constructor; [now constructor|].
      constructor; [exact Hyx|].
      rewrite Forall_forall in *. intros z Hz.
      apply may_precede_trans with y; [exact Hyx | now apply Hy].
Qed.

Lemma stable_sort_sorted l : StronglySorted may_precede (stable_sort before l).
Proof.
  induction l as [|x l IH]; simpl; [constructor | now apply insert_sorted].
Qed.

(** Elements that the order does not tell apart stay in their order. *)
Lemma insert_filter (p : A -> bool) x l :
  (forall y, In y l -> p x = true -> p y = true -> before y x = false) ->
  filter p (insert before x l) = filter p (x :: l).
Proof.
  induction l as [|y l IH]; intros H; [reflexivity|].
  simpl. destruct (before y x) eqn:Hyx; [|reflexivity].
  simpl. rewrite IH by (intros z Hz; apply H; now right). simpl.
  destruct (p x) eqn:Hx, (p y) eqn:Hy; try reflexivity.
  rewrite (H y) in Hyx; [discriminate | now left | reflexivity | exact Hy].
Qed.

Lemma stable_sort_filter (p : A -> bool) l :
  (forall x y, p x = true -> p y = true -> before y x = false) ->
  filter p (stable_sort before l) = filter p l.
Proof.
  intros H. induction l as [|x l IH]; [reflexivity|].
  simpl stable_sort. rewrite insert_filter by (intros; now apply H).
  simpl. now rewrite IH.
Qed.

Lemma stable_sort_nil l : stable_sort before l = [] -> l = [].
Proof.
  intros H. pose proof (stable_sort_perm l) as P. rewrite H in P.
  now apply Permutation_nil in P.
Qed.
End StableSortFacts.

Lemma firstn_is_prefix {A} n (l : list A) : is_prefix (firstn n l) l.
Proof. exists (skipn n l). symmetry. apply firstn_skipn. Qed.

Lemma filter_is_prefix {A} (p : A -> bool) (l1 l2 : list A) :
  is_prefix l1 l2 -> is_prefix (filter p l1) (filter p l2).
Proof. intros [rest ->]. exists (filter p rest). apply filter_app. Qed.

Lemma StronglySorted_prefix {A} (R : A -> A -> Prop) l1 l2 :
  is_prefix l1 l2 -> StronglySorted R l2 -> StronglySorted R l1.
Proof.
  intros [rest ->]. induction l1 as [|x l1 IH]; intros H; [constructor|].
  simpl in H. inversion H as [|? ? Hs Hf]; subst. constructor; [now apply IH|].
  rewrite Forall_forall in *. intros y Hy. apply Hf, in_or_app. now left.
Qed.

(** ** The order of the results *)

Lemma by_score_asym x y : by_score x y = true -> by_score y x = false.
Proof. unfold by_score. rewrite Z.ltb_lt, Z.ltb_ge. lia. Qed.

Lemma by_score_trans x y z :
  may_precede by_score x y -> may_precede by_score y z -> may_precede by_score x z.
Proof. unfold may_precede, by_score. rewrite !Z.ltb_ge. lia. Qed.

Lemma sort_results_descending l : descending (sort_results l).
Proof.
  unfold descending, sort_results.
  pose proof (stable_sort_sorted by_score by_score_asym by_score_trans l) as H.
  induction H as [|x l' Hl IH Hx]; constructor; [exact IH|].
  rewrite Forall_forall in *. intros y Hy. specialize (Hx y Hy).
  unfold may_precede, by_score in Hx. now apply Z.ltb_ge in Hx.
Qed.

Lemma sort_results_stable s l : with_score s (sort_results l) = with_score s l.
Proof.
  unfold with_score, sort_results. apply stable_sort_filter.
  intros x y Hx Hy. apply Z.eqb_eq in Hx, Hy. unfold by_score.
  apply Z.ltb_ge. lia.
Qed.

Lemma capped_spec l :
  capped l = match l with [] => None | _ => Some (firstn 5 l) end.
Proof. destruct l; reflexivity. Qed.

Lemma capped_some l rs :
  capped l = Some rs -> rs = firstn 5 l /\ (List.length rs <= 5)%nat.
Proof.
  rewrite capped_spec. destruct l as [|x l]; [discriminate|].
  intros H. inversion H. split; [reflexivity|].
  apply (firstn_le_length 5 (x :: l)).
Qed.

Lemma search_issue_found d query :
  run (Some d) (search_issue query) =
  if negb (Py.truthy (Py.strip query)) then inr None
  else match found d query with
       | inl e => inl e
       | inr results => inr (capped results)
       end.
Proof.
  unfold found, search_issue. cbn [run].
  destruct (negb (Py.truthy (Py.strip query))); [reflexivity|].
  destruct (sort_results _); [|reflexivity].
  cbn [run]. destruct (getitem d ISSUE); [reflexivity|].
  destruct (close_matches _ _ _ _); [reflexivity|].
  destruct (expand _ _); reflexivity.
Qed.

Lemma expand_spec d close :
  has_column d ISSUE = true ->
  expand d close = inr (expansion d close).
Proof.
  intros H. induction close as [|name close IH]; [reflexivity|].
  simpl. unfold getitem. rewrite H.
  fold (getitem d ISSUE). rewrite IH. reflexivity.
Qed.

Lemma expand_scores d close l r :
  expand d close = inr l -> In r l -> score r = 25%Z.
Proof.
  revert l. induction close as [|name close IH]; intros l; simpl.
  - intros [= <-] [].
  - destruct (getitem d ISSUE); [discriminate|].
    destruct (expand d close) as [e|rest]; [discriminate|].
    intros [= <-] Hin. apply in_app_or in Hin. destruct Hin as [Hin|Hin].
    + apply in_map_iff in Hin. destruct Hin as [row [<- _]]. reflexivity.
    + now apply (IH rest).
Qed.

Lemma constant_descending l :
  (forall r, In r l -> score r = 25%Z) -> descending l.
Proof.
  unfold descending. induction l as [|x l IH]; intros H; constructor.
  - apply IH. intros r Hr. apply H. now right.
  - rewrite Forall_forall. intros y Hy.
    rewrite (H x), (H y); [lia | now right | now left].
Qed.

Lemma found_descending d query l : found d query = inr l -> descending l.
Proof.
  unfold found. destruct (sort_results _) eqn:Hs.
  - destruct (getitem d ISSUE); [discriminate|].
    destruct (close_matches _ _ _ _); [discriminate|]. intros H.
    apply constant_descending. intros r. now apply expand_scores with (1 := H).
  - intros [= <-]. rewrite <- Hs. apply sort_results_descending.
Qed.

Lemma truthy_spec s : Py.truthy s = true <-> s <> "".
Proof. destruct s; simpl; split; congruence. Qed.

Lemma search_issue_returns d query rs :
  run (Some d) (search_issue query) = inr (Some rs) ->
  exists l, found d query = inr l /\ rs = firstn 5 l /\ (List.length rs <= 5)%nat.
Proof.
  rewrite search_issue_found.
  destruct (negb (Py.truthy (Py.strip query))); [discriminate|].
  destruct (found d query) as [e|l]; [discriminate|].
  intros [= H]. exists l. split; [reflexivity|]. now apply capped_some.
Qed.

(** C2. Whatever list the search returns has at most five entries, and
    the scores never go up along it.  The Matcher's answer is the first
    five of the sorted candidates, and the sort is stable: for every score,
    the returned entries with that score are the first ones, in the order
    of the table, of the candidates with that score. *)
Theorem search_at_most_five_sorted_stable (d : DataFrame) (query : string) :
  let candidates := scan d (Py.strip (Py.lower query)) in
  let top := firstn 5 (sort_results candidates) in
  (forall rs, run (Some d) (search_issue query) = inr (Some rs) ->
     (List.length rs <= 5)%nat /\ descending rs)
  /\ (List.length top <= 5)%nat
  /\ descending top
  /\ (forall s, with_score s (sort_results candidates) = with_score s candidates)
  /\ (forall s, is_prefix (with_score s top) (with_score s candidates))
  /\ (Py.strip query <> "" -> candidates <> [] ->
      run (Some d) (search_issue query) = inr (Some top)).
Proof.
  intros candidates top. split; [|split; [|split; [|split; [|split]]]].
  - intros rs H. apply search_issue_returns in H.
    destruct H as [l [Hf [-> Hlen]]]. split; [exact Hlen|].
    apply StronglySorted_prefix with l; [apply firstn_is_prefix|].
    now apply found_descending with (1 := Hf).
  - apply firstn_le_length.
  - apply StronglySorted_prefix with (sort_results candidates);
      [apply firstn_is_prefix | apply sort_results_descending].
  - intros s. apply sort_results_stable.
  - intros s. rewrite <- (sort_results_stable s candidates).
    apply filter_is_prefix, firstn_is_prefix.
  - intros Hq Hc. rewrite search_issue_found.
    apply truthy_spec in Hq. rewrite Hq. cbn [negb].
    unfold found. fold candidates.
    destruct (sort_results candidates) as [|r l] eqn:Hs.
    + apply stable_sort_nil in Hs. contradiction.
    + subst top. try rewrite Hs. reflexivity.
Qed.

Lemma search_at_most_five_sorted_stable_witness :
  let candidates := scan login_table (Py.strip (Py.lower " Login ")) in
  let top := firstn 5 (sort_results candidates) in
  (forall rs, run (Some login_table) (search_issue " Login ") = inr (Some rs) ->
     (List.length rs <= 5)%nat /\ descending rs)
  /\ (List.length top <= 5)%nat
  /\ descending top
  /\ (forall s, with_score s (sort_results candidates) = with_score s candidates)
  /\ (forall s, is_prefix (with_score s top) (with_score s candidates))
  /\ run (Some login_table) (search_issue " Login ") = inr (Some top).
Proof.
  destruct (search_at_most_five_sorted_stable login_table " Login ")
    as (H1 & H2 & H3 & H4 & H5 & H6).
  intros candidates top.
  conjs; [exact H1 | exact H2 | exact H3 | exact H4 | exact H5 |].
  apply H6; vm_compute; discriminate.
Defined.

(** ** Guards of the search *)

(** C6. On a bot that never got a table the search answers [None] and
    raises nothing; on any table, a query that is empty once stripped gets
    [None] from the guard: the search program then ends in its first
    locked block, before any row is read, whatever the table is. *)
Theorem search_not_ready_or_blank_query (query : string) :
  run None (search_issue query) = inr None
  /\ search init query = inr None
  /\ (Py.strip query = "" ->
      exists k, search_issue query = WithLock k
                /\ (forall d : DataFrame, k (Some d) = Ret None)
                /\ (forall d : DataFrame, run (Some d) (search_issue query) = inr None)).
Proof.
  split; [reflexivity|]. split; [reflexivity|].
  intros Hq. eexists. split; [reflexivity|].
  split; intros d; cbn; rewrite Hq; reflexivity.
Qed.

Lemma search_not_ready_or_blank_query_witness :
  run None (search_issue "   ") = inr None
  /\ search init "   " = inr None
  /\ exists k, search_issue "   " = WithLock k
               /\ (forall d : DataFrame, k (Some d) = Ret None)
               /\ (forall d : DataFrame, run (Some d) (search_issue "   ") = inr None).
Proof.
  destruct (search_not_ready_or_blank_query "   ") as (H1 & H2 & H3).
  conjs; [exact H1 | exact H2 | apply H3; reflexivity].
Defined.

(** C7, as the code has it.  The search answers no-match and not-ready with
    the same [None]. *)
Lemma no_match_answer_equals_not_ready_answer :
  found audio_table "zzzz" = inr []
  /\ run (Some audio_table) (search_issue "zzzz") = run None (search_issue "zzzz").
Proof. split; vm_compute; reflexivity. Qed.

(** C7, amended.  A search that finds nothing in both tiers returns [None],
    as does a search on a bot without a table; what tells the two apart is
    [ready], true on the first bot and false on the second. *)
Theorem no_match_and_not_ready_differ_in_ready_only
    (d : DataFrame) (t : option string) (query : string) :
  found d query = inr [] ->
  search {| df := Some d; _last_refresh := t |} query = inr None
  /\ search init query = inr None
  /\ ready {| df := Some d; _last_refresh := t |} = true
  /\ ready init = false.
Proof.
  intros H. unfold search. cbn [df]. rewrite search_issue_found, H.
  repeat split. now destruct (negb _).
Qed.

Lemma no_match_and_not_ready_differ_in_ready_only_witness :
  search {| df := Some audio_table; _last_refresh := None |} "zzzz" = inr None
  /\ search init "zzzz" = inr None
  /\ ready {| df := Some audio_table; _last_refresh := None |} = true
  /\ ready init = false.
Proof.
  apply (no_match_and_not_ready_differ_in_ready_only audio_table None "zzzz").
  vm_compute. reflexivity.
Defined.

(** ** The list of issue names *)

Lemma value_eqb_refl v : isna v = false -> value_eqb v v = true.
Proof.
  destruct v as [| |s|f k sh]; simpl; try discriminate; intros _.
  - apply String.eqb_refl.
  - rewrite Nat.eqb_refl. apply Qeq_bool_iff. reflexivity.
Qed.

Lemma value_eqb_sym v w : value_eqb v w = value_eqb w v.
Proof.
  destruct v as [| |s|f k sh], w as [| |t|g l sh']; simpl; try reflexivity.
  - apply String.eqb_sym.
  - rewrite Nat.eqb_sym. f_equal.
    destruct (Qeq_bool k l) eqn:E1, (Qeq_bool l k) eqn:E2; try reflexivity.
    + apply Qeq_bool_iff in E1. symmetry in E1. apply Qeq_bool_iff in E1. congruence.
    + apply Qeq_bool_iff in E2. symmetry in E2. apply Qeq_bool_iff in E2. congruence.
Qed.

Lemma value_eqb_text s v : value_eqb (Text s) v = true <-> v = Text s.
Proof.
  destruct v as [| |t|g l sh]; simpl; try (split; discriminate).
  rewrite String.eqb_eq. split; congruence.
Qed.

Lemma dropna_In col v : In v (dropna col) <-> In v col /\ isna v = false.
Proof. unfold dropna. rewrite filter_In, negb_true_iff. tauto. Qed.

Lemma unique_from_sound seen l v : In v (unique_from seen l) -> In v l.
Proof.
  revert seen. induction l as [|x l IH]; intros seen; simpl; [tauto|].
  destruct (existsb (value_eqb x) seen).
  - intros H. right. now apply IH with seen.
  - intros [<- | H]; [now left | right; now apply IH with (x :: seen)].
Qed.

Lemma unique_from_fresh seen l v w :
  In v (unique_from seen l) -> In w seen -> value_eqb v w = false.
Proof.
  revert seen. induction l as [|x l IH]; intros seen; simpl; [tauto|].
  destruct (existsb (value_eqb x) seen) eqn:Hx.
  - apply IH.
  - intros [<- | H] Hw.
    + destruct (value_eqb x w) eqn:E; [|reflexivity].
      assert (existsb (value_eqb x) seen = true) as C
        by (apply existsb_exists; now exists w).
      congruence.
    + apply (IH (x :: seen)); [exact H | now right].
Qed.

Lemma unique_from_distinct seen l : distinct (unique_from seen l).
Proof.
  unfold distinct. revert seen. induction l as [|x l IH]; intros seen; simpl; [constructor|].
  destruct (existsb (value_eqb x) seen); [apply IH|].
  constructor; [|apply IH].
  apply Forall_forall. intros w Hw. rewrite value_eqb_sym.
  apply (unique_from_fresh (x :: seen) l w x Hw). now left.
Qed.

Lemma unique_from_complete seen l v :
  In v l -> isna v = false ->
  (exists w, In w seen /\ value_eqb v w = true)
  \/ (exists w, In w (unique_from seen l) /\ value_eqb v w = true).
Proof.
  intros Hin Hv. revert seen. induction l as [|x l IH]; intros seen; [destruct Hin|].
  simpl. destruct (existsb (value_eqb x) seen) eqn:Hx.
  - destruct Hin as [-> | Hin]; [|now apply IH].
    left. apply existsb_exists in Hx. exact Hx.
  - destruct Hin as [-> | Hin].
    + right. exists v. split; [now left | now apply value_eqb_refl].
    + destruct (IH Hin (x :: seen)) as [[w [[<- | Hw] E]] | [w [Hw E]]].
      * right. exists x. split; [now left | exact E].
      * left. now exists w.
      * right. exists w. split; [now right | exact E].
Qed.

Lemma issue_list_sound col v :
  In v (issue_list col) -> In v col /\ isna v = false.
Proof.
  intros H. apply unique_from_sound in H. now apply dropna_In.
Qed.

Lemma issue_list_complete col v :
  In v col -> isna v = false ->
  exists w, In w (issue_list col) /\ value_eqb v w = true.
Proof.
  intros Hin Hv.
  destruct (unique_from_complete [] (dropna col) v) as [[w [[] _]] | H]; trivial.
  now apply dropna_In.
Qed.

Lemma issue_list_In col s : In (Text s) (issue_list col) <-> In (Text s) col.
Proof.
  split.
  - intros H. now apply issue_list_sound in H.
  - intros H. destruct (issue_list_complete col (Text s) H eq_refl) as [w [Hw E]].
    apply value_eqb_text in E. now subst w.
Qed.

Lemma issue_list_distinct col : distinct (issue_list col).
Proof. apply unique_from_distinct. Qed.

Lemma texts_spec l names : texts l = Some names -> l = map Text names.
Proof.
  revert names. induction l as [|v l IH]; intros names; simpl.
  - now intros [= <-].
  - destruct v as [| |s|f k sh]; try discriminate.
    destruct (texts l) as [names'|]; [|discriminate].
    intros [= <-]. simpl. now rewrite (IH names').
Qed.

Lemma texts_none l :
  texts l = None -> exists v, In v l /\ forall s, v <> Text s.
Proof.
  induction l as [|v l IH]; simpl; [discriminate|].
  destruct v as [| |s|f k sh];
    try (intros _; eexists; split; [now left | intros s; discriminate]).
  destruct (texts l) as [names'|]; [discriminate|].
  intros _. destruct (IH eq_refl) as [v [Hv Hn]]. exists v. split; [now right | exact Hn].
Qed.

Lemma texts_all l :
  (forall v, In v l -> exists s, v = Text s) -> exists names, texts l = Some names.
Proof.
  intros H. destruct (texts l) as [names|] eqn:E; [now exists names|].
  destruct (texts_none l E) as [v [Hv Hn]]. destruct (H v Hv) as [s ->].
  now destruct (Hn s).
Qed.

Lemma distinct_texts names : distinct (map Text names) -> NoDup names.
Proof.
  unfold distinct. induction names as [|s names IH]; intros H; [constructor|].
  simpl in H. inversion H as [|? ? Hf Hr]; subst. constructor; [|now apply IH].
  intros Hin. rewrite Forall_forall in Hf.
  specialize (Hf (Text s) (in_map Text _ _ Hin)). simpl in Hf.
  now rewrite String.eqb_refl in Hf.
Qed.

(** The names that the second tier compares, on a column of texts. *)
Lemma issue_names_of_texts col :
  (forall v, In v col -> isna v = true \/ exists s, v = Text s) ->
  exists names,
    texts (issue_list col) = Some names
    /\ NoDup names
    /\ forall s, In s names <-> In (Text s) col.
Proof.
  intros H.
  destruct (texts_all (issue_list col)) as [names E].
  { intros v Hv. apply issue_list_sound in Hv. destruct Hv as [Hv Hna].
    destruct (H v Hv) as [C | C]; [congruence | exact C]. }
  exists names. split; [exact E|]. pose proof (texts_spec _ _ E) as El. split.
  - apply distinct_texts. rewrite <- El. apply issue_list_distinct.
  - intros s. rewrite <- issue_list_In, El, in_map_iff. split.
    + intros Hs. now exists s.
    + intros [t [[= ->] Ht]]. exact Ht.
Qed.

Lemma has_column_In d label : has_column d label = true -> In label (columns d).
Proof.
  unfold has_column. rewrite existsb_exists. intros [x [Hx E]].
  apply String.eqb_eq in E. now subst.
Qed.

(** C8. On a table as [pd.read_excel] delivers it, the list of issue names
    of the second tier holds no value twice, and each of its values is a
    cell of the issue column, as it stands there, that is neither missing
    nor the empty text; a text is in the list exactly when it is in the
    column, so that two names that differ in case are two names; every
    cell of the column that is not missing has its value in the list. *)
Theorem issue_list_distinct_names_of_the_column (d : DataFrame) (col : list cell) :
  read_by_pandas d ->
  getitem d ISSUE = inr col ->
  distinct (issue_list col)
  /\ (forall v, In v (issue_list col) -> In v col /\ isna v = false /\ v <> Text "")
  /\ (forall s, In (Text s) (issue_list col) <-> In (Text s) col)
  /\ (forall v, In v col -> isna v = false ->
        exists w, In w (issue_list col) /\ value_eqb v w = true).
Proof.
  intros Hd Hcol. conjs.
  - apply issue_list_distinct.
  - intros v Hv. apply issue_list_sound in Hv. destruct Hv as [Hv Hna].
    conjs; trivial. intros ->.
    unfold getitem in Hcol. destruct (has_column d ISSUE) eqn:Hc; [|discriminate].
    injection Hcol as <-. apply in_map_iff in Hv. destruct Hv as [row [E Hrow]].
    apply (Hd row ISSUE Hrow (has_column_In _ _ Hc) E).
  - apply issue_list_In.
  - apply issue_list_complete.
Qed.

Lemma issue_list_distinct_names_of_the_column_witness :
  let col := [Text "Login Issue"; NaN; Text "login issue"; Text "Login Issue";
              Other 0 (404 # 1) "404"] in
  distinct (issue_list col)
  /\ (forall v, In v (issue_list col) -> In v col /\ isna v = false /\ v <> Text "")
  /\ (forall s, In (Text s) (issue_list col) <-> In (Text s) col)
  /\ (forall v, In v col -> isna v = false ->
        exists w, In w (issue_list col) /\ value_eqb v w = true).
Proof.
  apply (issue_list_distinct_names_of_the_column mixed_table).
  - intros row label Hrow Hlabel.
    repeat (destruct Hrow as [<- | Hrow]; [
      repeat (destruct Hlabel as [<- | Hlabel]; [vm_compute; discriminate|]);
      destruct Hlabel|]).
    destruct Hrow.
  - reflexivity.
Defined.

(** ** Refresh *)

Lemma refresh_download_failed share_link bot w :
  download_excel share_link w = false ->
  refresh share_link bot w = (bot, inr (Failure DOWNLOAD_FAILED)).
Proof. intros H. unfold refresh. now rewrite H. Qed.

Lemma refresh_installs share_link bot w d col :
  download_excel share_link w = true ->
  read_excel w = inr d ->
  getitem d ISSUE = inr col ->
  refresh share_link bot w =
  ({| df := Some d; _last_refresh := Some (clock w) |},
   inr (Success (len d) (nunique col) (Some (clock w)))).
Proof.
  intros Hok Hd Hcol. unfold refresh, load_from_path, unique_issues, total_records.
  rewrite Hok, Hd, Hcol. cbn. now rewrite Hcol.
Qed.

Lemma refresh_install_raises share_link bot w d e :
  download_excel share_link w = true ->
  read_excel w = inr d ->
  getitem d ISSUE = inl e ->
  refresh share_link bot w = ({| df := Some d; _last_refresh := Some (clock w) |}, inl e).
Proof.
  intros Hok Hd Hcol. unfold refresh, load_from_path.
  now rewrite Hok, Hd, Hcol.
Qed.

(** C9, at the failing input.  When the download goes through but the file
    cannot be read as a workbook, [refresh] leaves the bot as it was, yet
    it ends by raising what [pd.read_excel] raised: no status comes back.
    (A download that fails does come back as a [Failure] status; a workbook
    without an issue column is installed before [load_from_path] raises.) *)
Theorem refresh_raises_when_the_file_is_unreadable (bot : ExamSupportBot) (t : string) :
  download_excel "https://example.org/sheet" (unreadable_file t) = true
  /\ refresh "https://example.org/sheet" bot (unreadable_file t) = (bot, inl ExcelError)
  /\ refresh "" bot (unreadable_file t) = (bot, inr (Failure DOWNLOAD_FAILED))
  /\ refresh "https://example.org/sheet" bot (readable_file no_issue_column t)
     = ({| df := Some no_issue_column; _last_refresh := Some t |},
        inl (KeyError "Issue")).
Proof. repeat split. Qed.

(** C10. Two refreshes in a row that read the same table end the same way
    but for the time: both raise the same exception, or both return a
    status with the same two counts; with an issue column the counts are the
    number of rows and the number of distinct issue names. *)
Theorem refresh_twice_same_counts
    (share_link : string) (bot : ExamSupportBot) (w1 w2 : World) (d : DataFrame) :
  download_excel share_link w1 = true ->
  download_excel share_link w2 = true ->
  read_excel w1 = inr d ->
  read_excel w2 = inr d ->
  let first := refresh share_link bot w1 in
  let second := refresh share_link (fst first) w2 in
  counts (snd first) = counts (snd second)
  /\ df (fst first) = Some d
  /\ df (fst second) = Some d
  /\ (forall col, getitem d ISSUE = inr col ->
      snd first = inr (Success (len d) (nunique col) (Some (clock w1)))
      /\ snd second = inr (Success (len d) (nunique col) (Some (clock w2)))).
Proof.
  intros Hok1 Hok2 Hd1 Hd2 first second. subst first second.
  destruct (getitem d ISSUE) as [e|col] eqn:Hcol.
  - rewrite (refresh_install_raises share_link bot w1 d e) by assumption. cbn [fst snd].
    rewrite (refresh_install_raises share_link _ w2 d e) by assumption. cbn [fst snd df].
    split; [reflexivity|]. split; [reflexivity|]. split; [reflexivity|].
    intros c Hc. discriminate Hc.
  - rewrite (refresh_installs share_link bot w1 d col) by assumption. cbn [fst snd].
    rewrite (refresh_installs share_link _ w2 d col) by assumption. cbn [fst snd df counts].
    split; [reflexivity|]. split; [reflexivity|]. split; [reflexivity|].
    intros c Hc. injection Hc as <-. split; reflexivity.
Qed.

Lemma refresh_twice_same_counts_witness :
  let first := refresh "https://example.org/sheet" init (readable_file login_table "09:00") in
  let second :=
    refresh "https://example.org/sheet" (fst first) (readable_file login_table "09:30") in
  counts (snd first) = counts (snd second)
  /\ df (fst first) = Some login_table
  /\ df (fst second) = Some login_table
  /\ (forall col, getitem login_table ISSUE = inr col ->
      snd first = inr (Success (len login_table) (nunique col) (Some "09:00"))
      /\ snd second = inr (Success (len login_table) (nunique col) (Some "09:30"))).
Proof.
  apply (refresh_twice_same_counts "https://example.org/sheet" init
           (readable_file login_table "09:00") (readable_file login_table "09:30")
           login_table); reflexivity.
Defined.

(** ** Searching while another thread installs a table *)

Lemma run_among_alone {A} (slot : option DataFrame) (p : Prog A) :
  run_among [] slot p = run slot p.
Proof.
  revert slot. induction p as [x|e|k IH]; intros slot; cbn; [reflexivity..|].
  apply IH.
Qed.

(** A locked read sees one whole table: the one that was there, or one of
    those installed since. *)
Lemma locked_read_sees_a_whole_table (slot : option DataFrame) (installed : list DataFrame) :
  fold_left (fun _ d => Some d) installed slot = slot
  \/ exists d, In d installed /\ fold_left (fun _ d => Some d) installed slot = Some d.
Proof.
  revert slot. induction installed as [|d l IH]; intros slot; [now left|].
  right. cbn [fold_left]. destruct (IH (Some d)) as [E | [d' [Hin E]]].
  - exists d. split; [now left | exact E].
  - exists d'. split; [now right | exact E].
Qed.

(** C4, at the failing schedule.  The search reads the table a second time
    for the list of names.  With [old_table] read first and [new_table]
    installed before the second read, the names come from the new table and
    the rows from the old one: the search finds nothing, though it finds a
    record on either table alone. *)
Theorem fallback_reads_the_table_again :
  run_among [[]; [new_table]] (Some old_table) (search_issue "Wbcam Isue") = inr None
  /\ run (Some old_table) (search_issue "Wbcam Isue")
     = inr (Some [{| score := 25; issue := Text "Webcam Issue";
                     description := Text "no picture";
                     solution := "allow the camera" |}])
  /\ run (Some new_table) (search_issue "Wbcam Isue")
     = inr (Some [{| score := 25; issue := Text "Webcam Mic Issue";
                     description := Text "no picture or sound";
                     solution := "allow camera and microphone" |}]).
Proof. repeat split; vm_compute; reflexivity. Qed.

(** ** Missing cells and missing columns *)

(** C5, at the failing inputs.  A missing issue cell is searched as the
    text [nan]: the query [nan] finds the record with 100 points, and its
    missing solution is shown as [nan].  On a frame without an issue column
    the second tier raises [KeyError]. *)
Theorem missing_cell_is_searched_as_nan :
  run (Some blank_issue_table) (search_issue "nan")
  = inr (Some [{| score := 100; issue := NaN;
                  description := Text "screen stays black";
                  solution := "nan" |}])
  /\ run (Some no_issue_column) (search_issue "zzz") = inl (KeyError "Issue").
Proof. split; vm_compute; reflexivity. Qed.

(** ** Characters in common *)

Lemma all_ascii_In c : In c all_ascii.
Proof.
  unfold all_ascii. apply in_map_iff. exists (nat_of_ascii c).
  split; [apply ascii_nat_embedding|].
  apply in_seq. pose proof (nat_ascii_bounded c). lia.
Qed.

Lemma all_ascii_NoDup : NoDup all_ascii.
Proof.
  apply (NoDup_map_inv nat_of_ascii).
  replace (map nat_of_ascii all_ascii) with (seq 0 256) by (vm_compute; reflexivity).
  apply seq_NoDup.
Qed.

Lemma list_sum_le (f g : ascii -> nat) l :
  (forall c, f c <= g c) -> list_sum (map f l) <= list_sum (map g l).
Proof.
  intros H. induction l as [|x l IH]; simpl; [lia|]. specialize (H x). lia.
Qed.

Lemma list_sum_plus (f g : ascii -> nat) l :
  list_sum (map (fun c => f c + g c) l) = list_sum (map f l) + list_sum (map g l).
Proof. induction l as [|x l IH]; simpl; lia. Qed.

Lemma list_sum_same (f g : ascii -> nat) l :
  (forall c, In c l -> f c = g c) -> list_sum (map f l) = list_sum (map g l).
Proof.
  intros H. induction l as [|x l IH]; simpl; [reflexivity|].
  rewrite (H x) by now left. rewrite IH; [reflexivity|].
  intros c Hc. apply H. now right.
Qed.

(** Two functions that differ at one character only. *)
Lemma list_sum_differ_at (f g : ascii -> nat) x l :
  NoDup l -> (forall c, c <> x -> f c = g c) ->
  list_sum (map f l) + (if in_dec ascii_dec x l then g x else 0)
  = list_sum (map g l) + (if in_dec ascii_dec x l then f x else 0).
Proof.
  intros Hnd H. induction Hnd as [|y l Hy Hnd IH]; simpl; [reflexivity|].
  destruct (ascii_dec y x) as [->|Hne].
  - destruct (in_dec ascii_dec x l) as [Hin|_]; [contradiction|].
    rewrite (list_sum_same f g l); [lia|].
    intros c Hc. apply H. intros ->. contradiction.
  - rewrite (H y Hne).
    destruct (in_dec ascii_dec x l); lia.
Qed.

Lemma sum_chars_differ_at (f g : ascii -> nat) x :
  (forall c, c <> x -> f c = g c) ->
  sum_chars f + g x = sum_chars g + f x.
Proof.
  intros H. unfold sum_chars.
  pose proof (list_sum_differ_at f g x all_ascii all_ascii_NoDup H) as E.
  destruct (in_dec ascii_dec x all_ascii) as [_|Hn]; [exact E|].
  destruct Hn. apply all_ascii_In.
Qed.

Lemma sum_chars_le f g : (forall c, f c <= g c) -> sum_chars f <= sum_chars g.
Proof. apply list_sum_le. Qed.

Lemma sum_chars_plus f g :
  sum_chars (fun c => f c + g c) = sum_chars f + sum_chars g.
Proof. apply list_sum_plus. Qed.

Lemma sum_chars_zero : sum_chars (fun _ => 0) = 0.
Proof. unfold sum_chars. induction all_ascii; simpl; lia. Qed.

Lemma sum_chars_count l : sum_chars (count_occ ascii_dec l) = List.length l.
Proof.
  induction l as [|x l IH].
  - simpl. apply sum_chars_zero.
  - pose proof (sum_chars_differ_at (count_occ ascii_dec (x :: l))
                  (count_occ ascii_dec l) x) as E.
    simpl in E. destruct (ascii_dec x x) as [_|Hn]; [|contradiction].
    simpl. rewrite <- IH.
    assert (forall c, c <> x ->
              (if ascii_dec x c then S (count_occ ascii_dec l c)
               else count_occ ascii_dec l c) = count_occ ascii_dec l c) as Hc.
    { intros c Hc. destruct (ascii_dec x c); [congruence | reflexivity]. }
    specialize (E Hc). lia.
Qed.

Lemma common_le_left a b : common a b <= List.length a.
Proof.
  rewrite <- (sum_chars_count a). apply sum_chars_le. intros c. apply Nat.le_min_l.
Qed.

Lemma common_le_right a b : common a b <= List.length b.
Proof.
  rewrite <- (sum_chars_count b). apply sum_chars_le. intros c. apply Nat.le_min_r.
Qed.

Lemma common_same l : common l l = List.length l.
Proof.
  rewrite <- (sum_chars_count l). unfold common.
  apply list_sum_same. intros c _. apply Nat.min_id.
Qed.

(** Pairings of two pieces side by side make a pairing of the whole. *)
Lemma common_app a1 a2 b1 b2 :
  common a1 b1 + common a2 b2 <= common (a1 ++ a2) (b1 ++ b2).
Proof.
  unfold common. rewrite <- sum_chars_plus. apply sum_chars_le.
  intros c. rewrite !count_occ_app. lia.
Qed.

Lemma common_app3 a1 m a2 b1 b2 :
  common a1 b1 + List.length m + common a2 b2
  <= common (a1 ++ m ++ a2) (b1 ++ m ++ b2).
Proof.
  rewrite <- (common_same m).
  pose proof (common_app a1 (m ++ a2) b1 (m ++ b2)).
  pose proof (common_app m a2 m b2). lia.
Qed.

(** ** [quick_ratio] counts the characters in common *)

Lemma quick_loop_spec b l avail m :
  difflib.quick_loop b l avail m
  = m + sum_chars (fun c =>
          Nat.min (count_occ ascii_dec l c)
                  (Z.to_nat (match avail c with
                             | Some n => n
                             | None => Z.of_nat (count_occ ascii_dec b c)
                             end))).
Proof.
  revert avail m. induction l as [|x l IH]; intros avail m.
  - simpl. rewrite sum_chars_zero. lia.
  - cbn [difflib.quick_loop]. rewrite IH. clear IH.
    set (numb := match avail x with
                 | Some n => n
                 | None => Z.of_nat (count_occ ascii_dec b x)
                 end).
    match goal with
    | |- _ + sum_chars ?g = _ + sum_chars ?f =>
        pose proof (sum_chars_differ_at f g x) as E
    end.
    cbv beta in E. rewrite Ascii.eqb_refl in E. fold numb in E.
    simpl count_occ in E. destruct (ascii_dec x x) as [_|Hn]; [|contradiction].
    match type of E with
    | ?P -> _ => assert (Hoff : P)
    end.
    { intros c Hc. destruct (ascii_dec x c) as [->|_]; [contradiction|].
      apply Ascii.eqb_neq in Hc. rewrite Hc. reflexivity. }
    pose proof (E Hoff) as E'. clear E Hoff. cbn [count_occ].
    destruct (0 <? numb)%Z eqn:Hpos.
    + apply Z.ltb_lt in Hpos.
      replace (Z.to_nat numb) with (S (Z.to_nat (numb - 1))) in E' by lia.
      simpl Nat.min in E'. lia.
    + apply Z.ltb_ge in Hpos.
      replace (Z.to_nat numb) with 0 in E' by lia.
      replace (Z.to_nat (numb - 1)) with 0 in E' by lia.
      rewrite !Nat.min_0_r in E'. lia.
Qed.

Lemma quick_matches_common a b : difflib.quick_matches a b = common a b.
Proof.
  unfold difflib.quick_matches. rewrite quick_loop_spec. simpl.
  unfold common. apply list_sum_same. intros c _. now rewrite Nat2Z.id.
Qed.

(** ** [find_longest_match] returns a match of the window *)

Lemma indices_from_spec s l c j :
  In j (difflib.indices_from s l c) ->
  s <= j /\ nth (j - s) l Ascii.zero = c.
Proof.
  revert s. induction l as [|x l IH]; intros s; simpl; [tauto|].
  destruct (Ascii.eqb x c) eqn:Hx.
  - intros [<- | Hin].
    + rewrite Nat.sub_diag. apply Ascii.eqb_eq in Hx. split; [lia | exact Hx].
    + apply IH in Hin. destruct Hin as [Hle Hn]. split; [lia|].
      replace (j - s) with (S (j - S s)) by lia. exact Hn.
  - intros Hin. apply IH in Hin. destruct Hin as [Hle Hn]. split; [lia|].
    replace (j - s) with (S (j - S s)) by lia. exact Hn.
Qed.

Lemma b2j_spec b c j : In j (difflib.b2j b c) -> difflib.at_ b j = c.
Proof.
  unfold difflib.b2j. destruct (difflib.popular b c); [intros []|].
  intros Hin. apply indices_from_spec in Hin. destruct Hin as [_ H].
  now rewrite Nat.sub_0_r in H.
Qed.

Section LongestMatch.
Variables a b : list ascii.
Variables alo ahi blo bhi : nat.

Local Abbreviation window := (in_window a b alo ahi blo bhi).
Local Abbreviation run_to := (ends_at a b alo ahi blo bhi).

Lemma ends_at_one i j :
  alo <= i < ahi -> blo <= j < bhi ->
  difflib.at_ b j = difflib.at_ a i -> run_to i j 1.
Proof.
  intros Hi Hj E. unfold ends_at. conjs; try lia.
  intros t Ht. replace t with 0 by lia. now rewrite !Nat.sub_0_r.
Qed.

Lemma ends_at_next i j k :
  alo <= S i < ahi -> blo <= S j < bhi ->
  difflib.at_ b (S j) = difflib.at_ a (S i) ->
  run_to i j k -> run_to (S i) (S j) (k + 1).
Proof.
  intros Hi Hj E (H1 & H2 & H3 & H4 & H5). unfold ends_at.
  conjs; try lia.
  intros t Ht. destruct t as [|t].
  - now rewrite !Nat.sub_0_r.
  - cbn [Nat.sub]. apply H5. lia.
Qed.

Lemma ends_at_window i j k : run_to i j k -> window (i + 1 - k, j + 1 - k, k).
Proof.
  intros (H1 & H2 & H3 & H4 & H5). unfold in_window.
  conjs; try lia.
  intros t Ht. specialize (H5 (k - 1 - t)).
  replace (i - (k - 1 - t)) with (i + 1 - k + t) in H5 by lia.
  replace (j - (k - 1 - t)) with (j + 1 - k + t) in H5 by lia.
  apply H5. lia.
Qed.

Lemma scan_js_valid i j2len :
  alo <= i < ahi ->
  (forall j, j2len j <> 0 -> exists i', i = S i' /\ run_to i' j (j2len j)) ->
  forall js newj2len best,
    (forall j, In j js -> difflib.at_ b j = difflib.at_ a i) ->
    (forall j, newj2len j <> 0 -> run_to i j (newj2len j)) ->
    window best ->
    (forall j, fst (difflib.scan_js blo bhi i j2len js newj2len best) j <> 0 ->
       run_to i j (fst (difflib.scan_js blo bhi i j2len js newj2len best) j))
    /\ window (snd (difflib.scan_js blo bhi i j2len js newj2len best)).
Proof.
  intros Hi Hprev. induction js as [|j js IH]; intros newj2len best Hjs Hnew Hbest.
  - simpl. now split.
  - cbn [difflib.scan_js].
    destruct (j <? blo) eqn:Hlo.
    { apply IH; trivial. intros j' Hj'. apply Hjs. now right. }
    destruct (bhi <=? j) eqn:Hhi; [now split|].
    apply Nat.ltb_ge in Hlo. apply Nat.leb_gt in Hhi.
    assert (difflib.at_ b j = difflib.at_ a i) as Ej by (apply Hjs; now left).
    set (k := (match j with 0 => 0 | S j' => j2len j' end) + 1).
    assert (run_to i j k) as Hk.
    { subst k. destruct j as [|j'].
      - apply ends_at_one; trivial; lia.
      - destruct (Nat.eq_dec (j2len j') 0) as [E0|Hne].
        + rewrite E0. apply ends_at_one; trivial; lia.
        + destruct (Hprev j' Hne) as [i' [-> Hrun]].
          apply ends_at_next; trivial; lia. }
    destruct best as [[besti bestj] bestsize].
    apply IH.
    + intros j' Hj'. apply Hjs. now right.
    + intros j'. cbv beta. destruct (j' =? j) eqn:Ejj.
      * apply Nat.eqb_eq in Ejj. subst j'. intros _. exact Hk.
      * apply Hnew.
    + destruct (bestsize <? k); [now apply ends_at_window | exact Hbest].
Qed.

Lemma scan_is_valid n :
  forall i j2len best,
    alo <= i -> i + n <= ahi ->
    (forall j, j2len j <> 0 -> exists i', i = S i' /\ run_to i' j (j2len j)) ->
    window best ->
    window (difflib.scan_is a b blo bhi (seq i n) j2len best).
Proof.
  induction n as [|n IH]; intros i j2len best Hlo Hhi Hprev Hbest; [exact Hbest|].
  cbn [seq difflib.scan_is].
  destruct (scan_js_valid i j2len ltac:(lia) Hprev
              (difflib.b2j b (difflib.at_ a i)) (fun _ => 0) best) as [Hnew Hbest'].
  - intros j Hj. now apply b2j_spec.
  - intros j Hj. now destruct Hj.
  - exact Hbest.
  - destruct (difflib.scan_js _ _ _ _ _ _ _) as [newj2len best'].
    cbn [fst snd] in *. apply IH; trivial; try lia.
    intros j Hj. exists i. split; [reflexivity | now apply Hnew].
Qed.

Lemma extend_left_valid besti :
  forall bestj bestsize,
    window (besti, bestj, bestsize) ->
    window (difflib.extend_left a b alo blo besti bestj bestsize).
Proof.
  induction besti as [|i' IH]; intros bestj bestsize Hw; [exact Hw|].
  cbn [difflib.extend_left].
  destruct ((alo <? S i') && (blo <? bestj)
            && Ascii.eqb (difflib.at_ a i') (difflib.at_ b (bestj - 1))) eqn:Hc;
    [|exact Hw].
  apply andb_true_iff in Hc. destruct Hc as [Hc He].
  apply andb_true_iff in Hc. destruct Hc as [Hi Hj].
  apply Nat.ltb_lt in Hi, Hj. apply Ascii.eqb_eq in He.
  apply IH. destruct Hw as (H1 & H2 & H3 & H4 & H5).
  unfold in_window. conjs; try lia.
  intros t Ht. destruct t as [|t].
  - now rewrite !Nat.add_0_r.
  - replace (i' + S t) with (S i' + t) by lia.
    replace (bestj - 1 + S t) with (bestj + t) by lia.
    apply H5. lia.
Qed.

Lemma extend_right_valid room :
  forall besti bestj bestsize,
    window (besti, bestj, bestsize) ->
    window (besti, bestj, difflib.extend_right a b room ahi bhi besti bestj bestsize).
Proof.
  induction room as [|room IH]; intros besti bestj bestsize Hw; [exact Hw|].
  cbn [difflib.extend_right].
  destruct ((besti + bestsize <? ahi) && (bestj + bestsize <? bhi)
            && Ascii.eqb (difflib.at_ a (besti + bestsize))
                         (difflib.at_ b (bestj + bestsize))) eqn:Hc;
    [|exact Hw].
  apply andb_true_iff in Hc. destruct Hc as [Hc He].
  apply andb_true_iff in Hc. destruct Hc as [Hi Hj].
  apply Nat.ltb_lt in Hi, Hj. apply Ascii.eqb_eq in He.
  apply IH. destruct Hw as (H1 & H2 & H3 & H4 & H5).
  unfold in_window. conjs; try lia.
  intros t Ht. destruct (Nat.eq_dec t bestsize) as [->|Hne]; [exact He|].
  apply H5. lia.
Qed.

Lemma find_longest_match_valid :
  alo <= ahi -> blo <= bhi ->
  window (difflib.find_longest_match a b alo ahi blo bhi).
Proof.
  intros Ha Hb. unfold difflib.find_longest_match.
  pose proof (scan_is_valid (ahi - alo) alo (fun _ => 0) (alo, blo, 0)) as H1.
  destruct (difflib.scan_is _ _ _ _ _ _ _) as [[i1 j1] k1].
  assert (window (i1, j1, k1)) as W1.
  { apply H1; try lia. unfold in_window. conjs; try lia. }
  pose proof (extend_left_valid i1 j1 k1 W1) as W2.
  destruct (difflib.extend_left _ _ _ _ _ _ _) as [[i2 j2] k2].
  now apply extend_right_valid.
Qed.

End LongestMatch.

(** ** The matching blocks pair equal characters *)

Lemma firstn_plus {A} n m (l : list A) :
  firstn (n + m) l = firstn n l ++ firstn m (skipn n l).
Proof.
  revert l. induction n as [|n IH]; intros l; [reflexivity|].
  destruct l as [|x l]; simpl.
  - now rewrite firstn_nil.
  - now rewrite IH.
Qed.

Lemma slice_split l lo mid hi :
  lo <= mid <= hi -> slice l lo hi = slice l lo mid ++ slice l mid hi.
Proof.
  intros H. unfold slice.
  replace (hi - lo) with ((mid - lo) + (hi - mid)) by lia.
  rewrite firstn_plus, skipn_skipn.
  now replace (mid - lo + lo) with mid by lia.
Qed.

Lemma slice_all l : slice l 0 (List.length l) = l.
Proof. unfold slice. rewrite Nat.sub_0_r. simpl. apply firstn_all. Qed.

Lemma slice_length l lo hi :
  lo <= hi <= List.length l -> List.length (slice l lo hi) = hi - lo.
Proof.
  intros H. unfold slice. rewrite length_firstn, length_skipn. lia.
Qed.

Lemma slice_nth l lo hi t :
  t < hi - lo -> nth t (slice l lo hi) Ascii.zero = difflib.at_ l (lo + t).
Proof.
  intros H. unfold slice, difflib.at_. rewrite nth_firstn.
  apply Nat.ltb_lt in H. rewrite H. apply nth_skipn.
Qed.

Lemma window_slices a b alo ahi blo bhi i j k :
  in_window a b alo ahi blo bhi (i, j, k) ->
  ahi <= List.length a -> bhi <= List.length b ->
  slice a i (i + k) = slice b j (j + k).
Proof.
  intros (H1 & H2 & H3 & H4 & H5) Ha Hb.
  apply nth_ext with (d := Ascii.zero) (d' := Ascii.zero).
  - rewrite !slice_length by lia. lia.
  - intros t Ht. rewrite slice_length in Ht by lia.
    rewrite !slice_nth by lia. apply H5. lia.
Qed.

Lemma blocks_sum_app (l1 l2 : list difflib.Match) m :
  list_sum (map (fun m : difflib.Match => snd m) (l1 ++ m :: l2))
  = list_sum (map (fun m : difflib.Match => snd m) l1) + snd m
    + list_sum (map (fun m : difflib.Match => snd m) l2).
Proof. rewrite map_app, list_sum_app. simpl. lia. Qed.

Lemma blocks_common a b fuel :
  forall alo ahi blo bhi,
    alo <= ahi <= List.length a -> blo <= bhi <= List.length b ->
    list_sum (map (fun m : difflib.Match => snd m)
                (difflib.blocks a b fuel alo ahi blo bhi))
    <= common (slice a alo ahi) (slice b blo bhi).
Proof.
  induction fuel as [|fuel IH]; intros alo ahi blo bhi Ha Hb; [simpl; lia|].
  cbn [difflib.blocks].
  pose proof (find_longest_match_valid a b alo ahi blo bhi
                ltac:(lia) ltac:(lia)) as W.
  destruct (difflib.find_longest_match a b alo ahi blo bhi) as [[i j] k].
  destruct (k =? 0); [simpl; lia|].
  pose proof (window_slices _ _ _ _ _ _ _ _ _ W ltac:(lia) ltac:(lia)) as Emid.
  destruct W as (H1 & H2 & H3 & H4 & _).
  rewrite blocks_sum_app. cbn [snd].
  rewrite (slice_split a alo i ahi), (slice_split a i (i + k) ahi) by lia.
  rewrite (slice_split b blo j bhi), (slice_split b j (j + k) bhi) by lia.
  rewrite Emid.
  pose proof (common_app3 (slice a alo i) (slice b j (j + k)) (slice a (i + k) ahi)
                (slice b blo j) (slice b (j + k) bhi)) as Hc.
  rewrite slice_length in Hc by lia.
  replace (j + k - j) with k in Hc by lia.
  assert (list_sum (map (fun m : difflib.Match => snd m)
            (if (alo <? i) && (blo <? j)
             then difflib.blocks a b fuel alo i blo j else []))
          <= common (slice a alo i) (slice b blo j)) as HL.
  { destruct ((alo <? i) && (blo <? j)); [apply IH; lia | simpl; lia]. }
  assert (list_sum (map (fun m : difflib.Match => snd m)
            (if (i + k <? ahi) && (j + k <? bhi)
             then difflib.blocks a b fuel (i + k) ahi (j + k) bhi else []))
          <= common (slice a (i + k) ahi) (slice b (j + k) bhi)) as HR.
  { destruct ((i + k <? ahi) && (j + k <? bhi)); [apply IH; lia | simpl; lia]. }
  eapply Nat.le_trans; [|exact Hc].
  apply Nat.add_le_mono; [apply Nat.add_le_mono; [exact HL | apply Nat.le_refl] | exact HR].
Qed.

(** The fuel given to [blocks] is never used up: any fuel above the width
    of the window gives the same blocks. *)
Lemma blocks_fuel_enough a b fuel1 :
  forall fuel2 alo ahi blo bhi,
    alo <= ahi -> blo <= bhi -> ahi - alo < fuel1 -> ahi - alo < fuel2 ->
    difflib.blocks a b fuel1 alo ahi blo bhi = difflib.blocks a b fuel2 alo ahi blo bhi.
Proof.
  induction fuel1 as [|fuel1 IH]; intros fuel2 alo ahi blo bhi Ha Hb H1 H2; [lia|].
  destruct fuel2 as [|fuel2]; [lia|].
  cbn [difflib.blocks].
  pose proof (find_longest_match_valid a b alo ahi blo bhi Ha Hb) as W.
  destruct (difflib.find_longest_match a b alo ahi blo bhi) as [[i j] k].
  destruct (k =? 0) eqn:Hk; [reflexivity|].
  apply Nat.eqb_neq in Hk. destruct W as (W1 & W2 & W3 & W4 & _).
  f_equal; [|f_equal].
  - destruct ((alo <? i) && (blo <? j)); [apply IH; lia | reflexivity].
  - destruct ((i + k <? ahi) && (j + k <? bhi)); [apply IH; lia | reflexivity].
Qed.

Theorem matches_le_common a b : difflib.matches a b <= common a b.
Proof.
  unfold difflib.matches, difflib.get_matching_blocks.
  pose proof (blocks_common a b (S (List.length a)) 0 (List.length a) 0 (List.length b)
                ltac:(lia) ltac:(lia)) as H.
  now rewrite !slice_all in H.
Qed.

Lemma matches_le_quick a b : difflib.matches a b <= difflib.quick_matches a b.
Proof. rewrite quick_matches_common. apply matches_le_common. Qed.

Lemma quick_le_min a b :
  difflib.quick_matches a b <= Nat.min (List.length a) (List.length b).
Proof.
  rewrite quick_matches_common.
  pose proof (common_le_left a b). pose proof (common_le_right a b). lia.
Qed.

(** ** The three ratios *)

Lemma calculate_ratio_mono m m' len :
  m <= m' -> (difflib.calculate_ratio m len <= difflib.calculate_ratio m' len)%Q.
Proof.
  intros H. unfold difflib.calculate_ratio. destruct len as [|len].
  - apply Qle_refl.
  - unfold Qle. cbn [Qnum Qden]. apply Z.mul_le_mono_nonneg_r; lia.
Qed.

Lemma ratio_le_quick_ratio a b : (difflib.ratio a b <= difflib.quick_ratio a b)%Q.
Proof. apply calculate_ratio_mono, matches_le_quick. Qed.

Lemma quick_ratio_le_real_quick_ratio a b :
  (difflib.quick_ratio a b <= difflib.real_quick_ratio a b)%Q.
Proof. apply calculate_ratio_mono, quick_le_min. Qed.

Lemma ge_cutoff_spec x cutoff : difflib.ge_cutoff x cutoff = true <-> (cutoff <= x)%Q.
Proof. apply Qle_bool_iff. Qed.

(** The two cheap tests of [get_close_matches] let through every word
    that passes the third. *)
Lemma three_tests a b cutoff :
  difflib.ge_cutoff (difflib.real_quick_ratio a b) cutoff
  && difflib.ge_cutoff (difflib.quick_ratio a b) cutoff
  && difflib.ge_cutoff (difflib.ratio a b) cutoff
  = difflib.ge_cutoff (difflib.ratio a b) cutoff.
Proof.
  destruct (difflib.ge_cutoff (difflib.ratio a b) cutoff) eqn:H.
  - apply ge_cutoff_spec in H.
    assert (cutoff <= difflib.quick_ratio a b)%Q as Hq
      by (eapply Qle_trans; [exact H | apply ratio_le_quick_ratio]).
    assert (cutoff <= difflib.real_quick_ratio a b)%Q as Hr
      by (eapply Qle_trans; [exact Hq | apply quick_ratio_le_real_quick_ratio]).
    apply ge_cutoff_spec in Hq, Hr. now rewrite Hq, Hr.
  - apply andb_false_r.
Qed.

Lemma scored_In word cutoff possibilities r x :
  In (r, x) (difflib.scored word cutoff possibilities)
  <-> In x possibilities /\ r = similarity word x /\ (cutoff <= similarity word x)%Q.
Proof.
  unfold difflib.scored, similarity. rewrite in_flat_map. split.
  - intros [y [Hy Hin]]. rewrite three_tests in Hin.
    destruct (difflib.ge_cutoff _ _) eqn:Hc; [|destruct Hin].
    destruct Hin as [[= <- <-] | []]. apply ge_cutoff_spec in Hc. auto.
  - intros [Hx [-> Hc]]. exists x. split; [exact Hx|].
    rewrite three_tests. apply ge_cutoff_spec in Hc. rewrite Hc. now left.
Qed.

Lemma scored_names word cutoff possibilities :
  NoDup possibilities -> NoDup (map snd (difflib.scored word cutoff possibilities)).
Proof.
  unfold difflib.scored. induction 1 as [|x l Hx Hl IH]; simpl; [constructor|].
  rewrite map_app. destruct (_ && _); simpl; [|exact IH].
  constructor; [|exact IH].
  intros Hin. apply in_map_iff in Hin. destruct Hin as [[r y] [Hy Hin]].
  simpl in Hy. subst y. apply Hx.
  apply in_flat_map in Hin. destruct Hin as [z [Hz Hin]].
  destruct (_ && _); [|destruct Hin].
  destruct Hin as [[= _ <-] | []]. exact Hz.
Qed.

(** ** The order of [nlargest] *)

Lemma nat_of_ascii_inj x y : nat_of_ascii x = nat_of_ascii y -> x = y.
Proof.
  intros H. rewrite <- (ascii_nat_embedding x), <- (ascii_nat_embedding y).
  now rewrite H.
Qed.

Lemma str_ltb_irrefl s : Py.str_ltb s s = false.
Proof.
  induction s as [|c s IH]; [reflexivity|]. simpl.
  now rewrite Nat.ltb_irrefl, Nat.eqb_refl, IH.
Qed.

Lemma str_ltb_trans s1 :
  forall s2 s3, Py.str_ltb s1 s2 = true -> Py.str_ltb s2 s3 = true ->
                Py.str_ltb s1 s3 = true.
Proof.
  induction s1 as [|x s1 IH]; intros [|y s2] [|z s3]; simpl; try congruence.
  rewrite !orb_true_iff, !andb_true_iff, !Nat.ltb_lt, !Nat.eqb_eq.
  intros [H1 | [H1 H1']] [H2 | [H2 H2']]; try (left; lia).
  right. split; [lia | now apply IH with s2].
Qed.

Lemma str_ltb_total s1 :
  forall s2, s1 = s2 \/ Py.str_ltb s1 s2 = true \/ Py.str_ltb s2 s1 = true.
Proof.
  induction s1 as [|x s1 IH]; intros [|y s2]; simpl; auto.
  rewrite !orb_true_iff, !andb_true_iff, !Nat.ltb_lt, !Nat.eqb_eq.
  destruct (Nat.lt_trichotomy (nat_of_ascii x) (nat_of_ascii y)) as [H | [H | H]];
    [auto | | auto].
  apply nat_of_ascii_inj in H. subst y.
  destruct (IH s2) as [-> | [H | H]]; auto.
Qed.

(** [t1 >= t2] on the pairs of [get_close_matches] *)
Lemma pair_gt_false t1 t2 :
  difflib.pair_gt t2 t1 = false
  <-> (fst t2 <= fst t1)%Q
      /\ (fst t2 == fst t1 -> Py.str_ltb (snd t1) (snd t2) = false)%Q.
Proof.
  unfold difflib.pair_gt. rewrite orb_false_iff, negb_false_iff, Qle_bool_iff.
  rewrite andb_false_iff. split.
  - intros [H1 [H2 | H2]]; split; trivial.
    + intros E. apply Qeq_bool_iff in E. congruence.
  - intros [H1 H2]. split; [exact H1|].
    destruct (Qeq_bool (fst t2) (fst t1)) eqn:E; [right | now left].
    apply H2. now apply Qeq_bool_iff.
Qed.

Lemma pair_gt_asym x y : difflib.pair_gt x y = true -> difflib.pair_gt y x = false.
Proof.
  intros H. apply pair_gt_false.
  unfold difflib.pair_gt in H. apply orb_true_iff in H. destruct H as [H | H].
  - apply negb_true_iff in H.
    assert (~ (fst x <= fst y)%Q) as Hn by (rewrite <- Qle_bool_iff; congruence).
    apply Qnot_le_lt in Hn. split; [now apply Qlt_le_weak|].
    intros E. rewrite E in Hn. now apply Qlt_irrefl in Hn.
  - apply andb_true_iff in H. destruct H as [E L]. apply Qeq_bool_iff in E.
    split; [rewrite E; apply Qle_refl|]. intros _.
    destruct (Py.str_ltb (snd x) (snd y)) eqn:L'; [|reflexivity].
    pose proof (str_ltb_trans _ _ _ L L') as C. now rewrite str_ltb_irrefl in C.
Qed.

Lemma pair_gt_trans x y z :
  may_precede difflib.pair_gt x y -> may_precede difflib.pair_gt y z ->
  may_precede difflib.pair_gt x z.
Proof.
  unfold may_precede. rewrite !pair_gt_false. intros [H1 H1'] [H2 H2'].
  split; [now apply Qle_trans with (fst y)|].
  intros E.
  assert (fst z == fst y)%Q as Ezy.
  { apply Qle_antisym; [exact H2|]. rewrite E. exact H1. }
  assert (fst y == fst x)%Q as Eyx by (rewrite <- Ezy; exact E).
  specialize (H1' Eyx). specialize (H2' Ezy).
  destruct (Py.str_ltb (snd x) (snd z)) eqn:L; [|reflexivity].
  destruct (str_ltb_total (snd x) (snd y)) as [Exy | [Lxy | Lyx]].
  - rewrite Exy in L. congruence.
  - congruence.
  - pose proof (str_ltb_trans _ _ _ Lyx L). congruence.
Qed.

(** ** [get_close_matches] *)

Lemma StronglySorted_app_inv {A} (R : A -> A -> Prop) l1 l2 :
  StronglySorted R (l1 ++ l2) -> forall x y, In x l1 -> In y l2 -> R x y.
Proof.
  induction l1 as [|z l1 IH]; intros H x y Hx Hy; [destruct Hx|].
  simpl in H. inversion H as [|? ? Hs Hf]; subst.
  destruct Hx as [<- | Hx].
  - rewrite Forall_forall in Hf. apply Hf, in_or_app. now right.
  - now apply IH.
Qed.

Lemma StronglySorted_map {A B} (R : A -> A -> Prop) (R' : B -> B -> Prop) (f : A -> B) l :
  (forall x y, In x l -> In y l -> R x y -> R' (f x) (f y)) ->
  StronglySorted R l -> StronglySorted R' (map f l).
Proof.
  intros H. induction 1 as [|x l Hs IH Hf]; simpl; constructor.
  - apply IH. intros u v Hu Hv. apply H; now right.
  - rewrite Forall_forall in *. intros y Hy.
    apply in_map_iff in Hy. destruct Hy as [v [<- Hv]].
    apply H; [now left | now right | now apply Hf].
Qed.

Lemma NoDup_firstn {A} n (l : list A) : NoDup l -> NoDup (firstn n l).
Proof.
  intros H. rewrite <- (firstn_skipn n l) in H. now apply NoDup_app_remove_r in H.
Qed.

Lemma get_close_matches_spec word possibilities n cutoff :
  let names := difflib.get_close_matches word possibilities n cutoff in
  List.length names <= n
  /\ (NoDup possibilities -> NoDup names)
  /\ (forall x, In x names ->
        In x possibilities /\ (cutoff <= similarity word x)%Q)
  /\ StronglySorted (fun x y => (similarity word y <= similarity word x)%Q) names
  /\ (forall y, In y possibilities -> (cutoff <= similarity word y)%Q ->
        ~ In y names ->
        List.length names = n
        /\ forall x, In x names -> (similarity word y <= similarity word x)%Q).
Proof.
  intros names. subst names. unfold difflib.get_close_matches, difflib.nlargest.
  set (result := difflib.scored word cutoff possibilities).
  set (sorted := stable_sort difflib.pair_gt result).
  assert (Permutation sorted result) as Hperm by apply stable_sort_perm.
  assert (StronglySorted (may_precede difflib.pair_gt) sorted) as Hsorted
    by (apply stable_sort_sorted; [apply pair_gt_asym | apply pair_gt_trans]).
  assert (forall p, In p sorted ->
            In (snd p) possibilities /\ fst p = similarity word (snd p)
            /\ (cutoff <= similarity word (snd p))%Q) as Hin.
  { intros [r x] Hp. apply (Permutation_in _ Hperm) in Hp.
    now apply scored_In in Hp. }
  assert (forall p, In p (firstn n sorted) -> In p sorted) as Hfirst.
  { intros p Hp. rewrite <- (firstn_skipn n sorted). apply in_or_app. now left. }
  conjs.
  - rewrite length_map. apply firstn_le_length.
  - intros Hnd. rewrite <- firstn_map. apply NoDup_firstn.
    apply (Permutation_NoDup (l := map snd result)).
    + apply Permutation_map. now symmetry.
    + now apply scored_names.
  - intros x Hx. apply in_map_iff in Hx. destruct Hx as [p [<- Hp]].
    apply Hfirst, Hin in Hp. tauto.
  - apply StronglySorted_map with (R := may_precede difflib.pair_gt).
    + intros p q Hp Hq Hpq. apply pair_gt_false in Hpq. destruct Hpq as [Hle _].
      apply Hfirst, Hin in Hp. apply Hfirst, Hin in Hq.
      destruct Hp as (_ & <- & _). destruct Hq as (_ & <- & _). exact Hle.
    + apply StronglySorted_prefix with sorted; [apply firstn_is_prefix | exact Hsorted].
  - intros y Hy Hc Hn.
    assert (In (similarity word y, y) sorted) as Hys.
    { apply (Permutation_in _ (Permutation_sym Hperm)). now apply scored_In. }
    rewrite <- (firstn_skipn n sorted) in Hys. apply in_app_or in Hys.
    destruct Hys as [Hys | Hys].
    { destruct Hn. apply in_map_iff. now exists (similarity word y, y). }
    split.
    + rewrite length_map, length_firstn.
      assert (List.length (skipn n sorted) <> 0) as Hlen
        by (destruct (skipn n sorted); [destruct Hys | discriminate]).
      rewrite length_skipn in Hlen. lia.
    + intros x Hx. apply in_map_iff in Hx. destruct Hx as [p [<- Hp]].
      rewrite <- (firstn_skipn n sorted) in Hsorted.
      pose proof (StronglySorted_app_inv _ _ _ Hsorted p _ Hp Hys) as Hpy.
      apply pair_gt_false in Hpy. destruct Hpy as [Hle _]. cbn [fst] in Hle.
      apply Hfirst, Hin in Hp. destruct Hp as (_ & <- & _). exact Hle.
Qed.

(** ** The Fallback Resolver *)

Lemma select_spec d name row :
  In row (select d ISSUE name) <-> In row (rows d) /\ row ISSUE = Text name.
Proof.
  unfold select. rewrite filter_In. unfold cell_eqb.
  destruct (row ISSUE) as [| |s|f k sh];
    try (split; intros [H1 H2]; discriminate).
  rewrite String.eqb_eq. split; intros [H1 H2]; split; congruence.
Qed.

Lemma getitem_has_column d label col :
  getitem d label = inr col ->
  has_column d label = true /\ col = map (fun row => row label) (rows d).
Proof.
  unfold getitem. destruct (has_column d label); [|discriminate].
  intros [= <-]. now split.
Qed.

Lemma close_matches_of_texts query col :
  (forall v, In v col -> isna v = true \/ exists s, v = Text s) ->
  exists list_of_names,
    texts (issue_list col) = Some list_of_names
    /\ NoDup list_of_names
    /\ (forall s, In s list_of_names <-> In (Text s) col)
    /\ close_matches query (issue_list col) 3 (4 # 10)
       = inr (difflib.get_close_matches query list_of_names 3 (4 # 10)).
Proof.
  intros H. destruct (issue_names_of_texts col H) as [l (E & Hnd & Hin)].
  exists l. conjs; trivial. unfold close_matches. now rewrite E.
Qed.




(** ** Checks on concrete inputs *)

Example strip_lower_split :
  Py.strip (Py.lower "  Camera NOT   working ") = "camera not   working"
  /\ Py.split "camera not   working" = ["camera"; "not"; "working"].
Proof. split; reflexivity. Qed.

Example contains_examples :
  Py.contains "login" "a login issue" = true
  /\ Py.contains "logout" "a login issue" = false
  /\ Py.contains "" "anything" = true.
Proof. repeat split. Qed.

Example search_login :
  run (Some login_table) (search_issue " Login ")
  = inr (Some [{| score := 100; issue := Text "Login Issue";
                  description := Text "cannot log in";
                  solution := "reset the password" |};
               {| score := 100; issue := Text "Login Issue";
                  description := Text "password rejected";
                  solution := "check caps lock" |};
               {| score := 75; issue := Text "Audio Problem";
                  description := Text "login page has no sound";
                  solution := "check the speakers" |}]).
Proof. vm_compute. reflexivity. Qed.

Example search_webcam_typo :
  option_map (map description) 
    match run (Some webcam_table) (search_issue "Wbcam Isue") with
    | inr r => r
    | inl _ => None
    end
  = Some [Text "no picture"; Text "black image"; Text "image freezes";
          Text "device not found"].
Proof. vm_compute. reflexivity. Qed.

Example close_matches_of_the_manual :
  difflib.get_close_matches "appel" ["ape"; "apple"; "peach"; "puppy"] 3 (6 # 10)
  = ["apple"; "ape"].
Proof. vm_compute. reflexivity. Qed.

Example ratio_webcam :
  similarity "camera not working" "Webcam Mic Issue" = (10 # 34)%Q.
Proof. vm_compute. reflexivity. Qed.


(* ------------------------------------------------------------------ *)
(** * Further properties *)

(** ** The query and its words *)

Lemma str_app_assoc (s1 s2 s3 : string) :
  ((s1 ++ s2) ++ s3 = s1 ++ s2 ++ s3)%string.
Proof. induction s1 as [|c s1 IH]; simpl; [reflexivity | now rewrite IH]. Qed.

Lemma str_app_nil_r (s : string) : (s ++ "" = s)%string.
Proof. induction s as [|c s IH]; simpl; [reflexivity | now rewrite IH]. Qed.

Lemma Substring_refl s : Substring s s.
Proof. exists "", "". simpl. now rewrite str_app_nil_r. Qed.

Lemma Substring_prefix p s : Substring p (p ++ s).
Proof. now exists "", s. Qed.

Lemma Substring_app_l p s pre : Substring p s -> Substring p (pre ++ s).
Proof.
  intros [u [v ->]]. exists (pre ++ u)%string, v. now rewrite str_app_assoc.
Qed.

Lemma Substring_trans p s t : Substring p s -> Substring s t -> Substring p t.
Proof.
  intros [u [v ->]] [u' [v' ->]].
  exists (u' ++ u)%string, (v ++ v')%string.
  now rewrite !str_app_assoc.
Qed.

Lemma split_from_words w acc s :
  In w (Py.split_from acc s) -> w <> "" /\ Substring w (acc ++ s).
Proof.
  revert acc. induction s as [|c s IH]; intros acc; simpl.
  - destruct acc as [|a acc]; [intros []|].
    intros [<- | []]. split; [discriminate|].
    rewrite str_app_nil_r. apply Substring_refl.
  - destruct (Py.isspace c).
    + destruct acc as [|a acc].
      * intros H. apply IH in H. simpl in H. destruct H as [H1 H2].
        split; [exact H1|]. now apply (Substring_app_l w s (String c "")).
      * intros [<- | H].
        -- split; [discriminate | apply Substring_prefix].
        -- apply IH in H. simpl in H. destruct H as [H1 H2]. split; [exact H1|].
           now apply (Substring_app_l w s (String a acc ++ String c "")) in H2;
             rewrite str_app_assoc in H2.
    + intros H. apply IH in H. now rewrite str_app_assoc in H.
Qed.

Lemma isspace_lower_char c : Py.isspace (Py.lower_char c) = Py.isspace c.
Proof. destruct c as [[] [] [] [] [] [] [] []]; reflexivity. Qed.

Lemma lower_lstrip s : Py.lower (Py.lstrip s) = Py.lstrip (Py.lower s).
Proof.
  induction s as [|c s IH]; [reflexivity|]. simpl.
  rewrite isspace_lower_char. destruct (Py.isspace c); [exact IH | reflexivity].
Qed.

Lemma lower_rstrip s : Py.lower (Py.rstrip s) = Py.rstrip (Py.lower s).
Proof.
  induction s as [|c s IH]; [reflexivity|]. simpl.
  rewrite <- IH, isspace_lower_char.
  destruct (Py.rstrip s); simpl; [destruct (Py.isspace c)|]; reflexivity.
Qed.

Lemma lower_strip s : Py.lower (Py.strip s) = Py.strip (Py.lower s).
Proof. unfold Py.strip. now rewrite lower_rstrip, lower_lstrip. Qed.

Lemma lower_empty s : Py.lower s = "" <-> s = "".
Proof. destruct s; simpl; split; congruence. Qed.

(** A text that starts with a character that is no space, if it starts at all. *)
Lemma lstrip_head s :
  Py.lstrip s = "" \/ exists c r, Py.lstrip s = String c r /\ Py.isspace c = false.
Proof.
  induction s as [|c s IH]; [now left|]. simpl.
  destruct (Py.isspace c) eqn:E; [exact IH|]. right. now exists c, s.
Qed.

Lemma rstrip_head c r :
  Py.isspace c = false -> exists r', Py.rstrip (String c r) = String c r'.
Proof.
  intros E. simpl. rewrite E. destruct (Py.rstrip r); eauto.
Qed.

Lemma strip_head s :
  Py.strip s = "" \/ exists c r, Py.strip s = String c r /\ Py.isspace c = false.
Proof.
  unfold Py.strip. destruct (lstrip_head s) as [-> | [c [r [-> E]]]]; [now left|].
  right. destruct (rstrip_head c r E) as [r' ->]. now exists c, r'.
Qed.

Lemma split_from_nonempty acc s :
  acc <> "" -> Py.split_from acc s <> [].
Proof.
  revert acc. induction s as [|c s IH]; intros acc Hacc; simpl.
  - destruct acc; [contradiction | discriminate].
  - destruct (Py.isspace c).
    + destruct acc; [contradiction | discriminate].
    + apply IH. destruct acc; discriminate.
Qed.

Lemma guarded_query_has_words_aux query :
  Py.strip query <> "" ->
  Py.strip (Py.lower query) <> ""
  /\ (forall w, In w (Py.split (Py.strip (Py.lower query))) -> w <> "").
Proof.
  intros Hq. rewrite <- lower_strip. split.
  - now rewrite lower_empty.
  - intros w Hw. now apply split_from_words in Hw.
Qed.

(** X1. The guard of [search_issue] and the query it searches with go
    together: lowering and stripping commute, so a query that passes the
    guard gives a [q] that is not empty and has at least one word; every
    word of [q] is not empty and occurs in [q]. *)
Theorem guarded_query_has_words (query : string) :
  Py.strip query <> "" ->
  let q := Py.strip (Py.lower query) in
  q = Py.lower (Py.strip query)
  /\ q <> ""
  /\ Py.split q <> []
  /\ (forall w, In w (Py.split q) -> w <> "" /\ Substring w q).
Proof.
  intros Hq q. subst q. rewrite <- lower_strip. conjs.
  - reflexivity.
  - now rewrite lower_empty.
  - destruct (strip_head (Py.lower query)) as [E | [c [r [E Hc]]]].
    + rewrite <- lower_strip in E. apply -> lower_empty in E. contradiction.
    + rewrite <- lower_strip in E. rewrite E. unfold Py.split. simpl.
      rewrite Hc. apply split_from_nonempty. discriminate.
  - intros w Hw. now apply split_from_words in Hw.
Qed.

Lemma guarded_query_has_words_witness :
  let q := Py.strip (Py.lower "  Login  Issue ") in
  q = Py.lower (Py.strip "  Login  Issue ")
  /\ q <> ""
  /\ Py.split q <> []
  /\ (forall w, In w (Py.split q) -> w <> "" /\ Substring w q).
Proof.
  apply (guarded_query_has_words "  Login  Issue "). vm_compute. discriminate.
Defined.

(** ** The totals of the Matcher *)

(** X2. A total is one of nine values, so it lies between 0 and 175; the
    whole query occurs in the issue text exactly when the total is 100, 130
    or 175 (125 is a word in the issue plus the whole query in the
    description). *)
Theorem score_is_one_of_nine_totals (q issue_text description_text : string) :
  let total := row_score q issue_text description_text in
  In total possible_totals
  /\ (0 <= total <= 175)%Z
  /\ (Substring q issue_text <-> total = 100 \/ total = 130 \/ total = 175)%Z.
Proof.
  intros total. subst total. rewrite row_score_sum, <- contains_spec.
  unfold possible_totals.
  destruct (Py.contains q issue_text), (Py.contains q description_text);
    repeat match goal with |- context [Py.any ?f ?l] => destruct (Py.any f l) end;
    (split; [simpl; tauto | split; [lia | split; [intros; lia | intros; try reflexivity; lia]]]).
Qed.

Lemma contains_empty_text p : p <> "" -> Py.contains p "" = false.
Proof. destruct p; [contradiction | reflexivity]. Qed.

Lemma row_score_empty_texts query :
  Py.strip query <> "" -> row_score (Py.strip (Py.lower query)) "" "" = 0%Z.
Proof.
  intros Hq. destruct (guarded_query_has_words_aux query Hq) as (Hne & Hw).
  rewrite row_score_sum, (contains_empty_text _ Hne).
  assert (Py.any (fun w => Py.contains w "") (Py.split (Py.strip (Py.lower query))) = false) as E.
  { apply any_false. intros w Hin. apply contains_empty_text. now apply Hw. }
  now rewrite E.
Qed.

(** X3. A row without text to search gives no candidate: on a frame that
    has neither the issue nor the description column, the Matcher finds
    nothing for any query that passes the guard. *)
Theorem no_text_columns_no_candidates (d : DataFrame) (query : string) :
  has_column d ISSUE = false ->
  has_column d DESCRIPTION = false ->
  Py.strip query <> "" ->
  scan d (Py.strip (Py.lower query)) = [].
Proof.
  intros Hi Hd Hq. unfold scan.
  induction (rows d) as [|row l IH]; [reflexivity|].
  simpl. rewrite IH, app_nil_r. unfold visit, get. rewrite Hi, Hd.
  simpl str. simpl Py.lower. now rewrite row_score_empty_texts.
Qed.

Lemma no_text_columns_no_candidates_witness :
  scan {| columns := [SOLUTIONS]; rows := [fun _ => Text "restart"] |}
       (Py.strip (Py.lower "restart")) = [].
Proof.
  apply (no_text_columns_no_candidates
           {| columns := [SOLUTIONS]; rows := [fun _ => Text "restart"] |} "restart");
    [reflexivity | reflexivity | vm_compute; discriminate].
Defined.

(** ** What the search returns *)

Lemma descending_head_max r l :
  descending (r :: l) -> forall c, In c (r :: l) -> (score c <= score r)%Z.
Proof.
  intros H c [<- | Hc]; [lia|].
  inversion H as [|? ? _ Hf]; subst. rewrite Forall_forall in Hf. now apply Hf.
Qed.

Lemma descending_split n l :
  descending l ->
  forall x y, In x (firstn n l) -> In y (skipn n l) -> (score y <= score x)%Z.
Proof.
  intros H x y Hx Hy. rewrite <- (firstn_skipn n l) in H.
  exact (StronglySorted_app_inv _ _ _ H x y Hx Hy).
Qed.

(** X4. The cut to five entries keeps the best: when the Matcher finds
    candidates, a candidate that is not returned never has a higher score
    than a returned one, the first entry has the highest score of all, and
    with five candidates or fewer all of them are returned. *)
Theorem matcher_cut_keeps_the_best (d : DataFrame) (query : string) :
  Py.strip query <> "" ->
  scan d (Py.strip (Py.lower query)) <> [] ->
  exists r rs,
    run (Some d) (search_issue query) = inr (Some (r :: rs))
    /\ (forall c, In c (scan d (Py.strip (Py.lower query))) ->
          (score c <= score r)%Z
          /\ (In c (r :: rs) \/ forall x, In x (r :: rs) -> (score c <= score x)%Z))
    /\ (List.length (scan d (Py.strip (Py.lower query))) <= 5 ->
        Permutation (r :: rs) (scan d (Py.strip (Py.lower query)))).
Proof.
  intros Hq Hc. set (cands := scan d (Py.strip (Py.lower query))) in *.
  pose proof (stable_sort_perm by_score cands) as Hperm. fold (sort_results cands) in Hperm.
  pose proof (sort_results_descending cands) as Hdesc.
  assert (run (Some d) (search_issue query) = inr (capped (sort_results cands))) as Hrun.
  { rewrite search_issue_found. apply truthy_spec in Hq. rewrite Hq. cbn [negb].
    unfold found. fold cands. destruct (sort_results cands) eqn:E; [|reflexivity].
    apply stable_sort_nil in E. contradiction. }
  destruct (sort_results cands) as [|r l] eqn:Es.
  { apply Permutation_nil in Hperm. contradiction. }
  rewrite capped_spec in Hrun.
  exists r, (firstn 4 l). split; [exact Hrun|]. split.
  - intros c Hin. apply (Permutation_in _ (Permutation_sym Hperm)) in Hin.
    split; [now apply descending_head_max with l|].
    rewrite <- (firstn_skipn 5 (r :: l)) in Hin. apply in_app_or in Hin.
    destruct Hin as [Hin | Hin]; [now left | right].
    intros x Hx. now apply (descending_split 5 (r :: l) Hdesc).
  - intros Hlen. rewrite <- Hperm.
    change (r :: firstn 4 l) with (firstn 5 (r :: l)).
    rewrite firstn_all2; [reflexivity|].
    rewrite (Permutation_length Hperm). exact Hlen.
Qed.

Lemma matcher_cut_keeps_the_best_witness :
  exists r rs,
    run (Some login_table) (search_issue " Login ") = inr (Some (r :: rs))
    /\ (forall c, In c (scan login_table (Py.strip (Py.lower " Login "))) ->
          (score c <= score r)%Z
          /\ (In c (r :: rs) \/ forall x, In x (r :: rs) -> (score c <= score x)%Z))
    /\ (List.length (scan login_table (Py.strip (Py.lower " Login "))) <= 5 ->
        Permutation (r :: rs) (scan login_table (Py.strip (Py.lower " Login ")))).
Proof.
  apply (matcher_cut_keeps_the_best login_table " Login "); vm_compute; discriminate.
Defined.

Lemma visit_built_from d q row r : In r (visit d q row) -> built_from d row r.
Proof.
  destruct (visit_cases d q row) as [[_ ->] | [_ ->]]; [intros []|].
  intros [<- | []]. now unfold built_from.
Qed.

Lemma expand_built_from d close l r :
  expand d close = inr l -> In r l ->
  exists row, In row (rows d) /\ built_from d row r.
Proof.
  revert l. induction close as [|name close IH]; intros l; simpl.
  - intros [= <-] [].
  - destruct (getitem d ISSUE); [discriminate|].
    destruct (expand d close) as [e|rest]; [discriminate|].
    intros [= <-] Hin. apply in_app_or in Hin. destruct Hin as [Hin | Hin].
    + apply in_map_iff in Hin. destruct Hin as [row [<- Hrow]].
      apply select_spec in Hrow. exists row. split; [tauto | now unfold built_from].
    + now apply (IH rest).
Qed.

Lemma found_built_from d query l r :
  found d query = inr l -> In r l ->
  exists row, In row (rows d) /\ built_from d row r.
Proof.
  unfold found. destruct (sort_results _) as [|r0 l0] eqn:Es.
  - destruct (getitem d ISSUE); [discriminate|].
    destruct (close_matches _ _ _ _); [discriminate|]. apply expand_built_from.
  - intros [= <-] Hin. rewrite <- Es in Hin.
    apply (Permutation_in _ (stable_sort_perm by_score _)) in Hin.
    unfold scan in Hin. apply in_flat_map in Hin. destruct Hin as [row [Hrow Hin]].
    exists row. split; [exact Hrow | now apply visit_built_from with (q := Py.strip (Py.lower query))].
Qed.

(** X5. The search never hands out an empty list, and it invents nothing:
    a returned list has between one and five entries, and each entry is
    made of the issue, description and solution cells of one row of the
    table. *)
Theorem search_returns_rows_of_the_table (d : DataFrame) (query : string) (rs : list Result) :
  run (Some d) (search_issue query) = inr (Some rs) ->
  1 <= List.length rs <= 5
  /\ forall r, In r rs -> exists row, In row (rows d) /\ built_from d row r.
Proof.
  rewrite search_issue_found.
  destruct (negb (Py.truthy (Py.strip query))); [discriminate|].
  destruct (found d query) as [e|l] eqn:Hf; [discriminate|].
  rewrite capped_spec. destruct l as [|r0 l]; [discriminate|].
  intros [= <-]. split.
  - split; [simpl; lia | apply (firstn_le_length 5 (r0 :: l))].
  - intros r Hr. apply (found_built_from d query (r0 :: l) r Hf).
    rewrite <- (firstn_skipn 5 (r0 :: l)). apply in_or_app. now left.
Qed.

Lemma search_returns_rows_of_the_table_witness :
  let rs := [{| score := 25; issue := Text "Webcam Issue";
                description := Text "no picture";
                solution := "allow the camera" |}] in
  1 <= List.length rs <= 5
  /\ forall r, In r rs -> exists row, In row (rows old_table) /\ built_from old_table row r.
Proof.
  apply (search_returns_rows_of_the_table old_table "Wbcam Isue").
  vm_compute. reflexivity.
Defined.

(** ** What the search can raise *)

Lemma getitem_raises d label e :
  getitem d label = inl e -> e = KeyError label /\ has_column d label = false.
Proof.
  unfold getitem. destruct (has_column d label); [discriminate|].
  intros [= <-]. now split.
Qed.

Lemma expand_raises d close e :
  expand d close = inl e -> e = KeyError ISSUE /\ has_column d ISSUE = false.
Proof.
  induction close as [|name close IH]; simpl; [discriminate|].
  destruct (getitem d ISSUE) as [e'|col] eqn:Hg.
  - intros [= <-]. now apply getitem_raises.
  - destruct (expand d close); [|discriminate]. intros [= <-]. now apply IH.
Qed.

Lemma close_matches_raises query l n cutoff e :
  close_matches query l n cutoff = inl e ->
  e = TypeError_len /\ exists v, In v l /\ forall s, v <> Text s.
Proof.
  unfold close_matches. destruct (texts l) eqn:E; [discriminate|].
  intros [= <-]. split; [reflexivity | now apply texts_none].
Qed.

Lemma close_matches_of_other query col n cutoff v :
  In v col -> isna v = false -> (forall s, v <> Text s) ->
  close_matches query (issue_list col) n cutoff = inl TypeError_len.
Proof.
  intros Hv Hna Hn. unfold close_matches.
  destruct (texts (issue_list col)) as [names|] eqn:E; [|reflexivity].
  apply texts_spec in E.
  destruct (issue_list_complete col v Hv Hna) as [w [Hw Ew]].
  rewrite E in Hw. apply in_map_iff in Hw. destruct Hw as [s [<- _]].
  rewrite value_eqb_sym in Ew. apply value_eqb_text in Ew. now destruct (Hn s).
Qed.

(** X6. For a thread that runs alone, the search raises in two cases only,
    both in the second tier (the query passes the guard and the Matcher
    found nothing): [KeyError('Issue')] when the table has no issue column,
    and [TypeError] from [get_close_matches] when the issue column holds a
    value that is neither missing nor a text.  In both cases it does raise;
    on a table whose issue column holds texts and empty cells only, it
    always returns. *)
Theorem search_raises_only_in_the_second_tier (d : DataFrame) (query : string) :
  (forall e, run (Some d) (search_issue query) = inl e ->
     Py.strip query <> ""
     /\ scan d (Py.strip (Py.lower query)) = []
     /\ ((e = KeyError ISSUE /\ has_column d ISSUE = false)
         \/ (e = TypeError_len
             /\ exists col v, getitem d ISSUE = inr col /\ In v col
                              /\ isna v = false /\ forall s, v <> Text s)))
  /\ (Py.strip query <> "" -> scan d (Py.strip (Py.lower query)) = [] ->
      (has_column d ISSUE = false ->
       run (Some d) (search_issue query) = inl (KeyError ISSUE))
      /\ (forall col v, getitem d ISSUE = inr col -> In v col -> isna v = false ->
            (forall s, v <> Text s) ->
            run (Some d) (search_issue query) = inl TypeError_len))
  /\ (forall col, getitem d ISSUE = inr col ->
        (forall v, In v col -> isna v = true \/ exists s, v = Text s) ->
        exists answer, run (Some d) (search_issue query) = inr answer).
Proof.
  rewrite search_issue_found. conjs.
  - intros e. destruct (negb (Py.truthy (Py.strip query))) eqn:Hq; [discriminate|].
    apply negb_false_iff, truthy_spec in Hq.
    unfold found. destruct (sort_results _) as [|r l] eqn:Es; [|discriminate].
    apply stable_sort_nil in Es.
    destruct (getitem d ISSUE) as [e'|col] eqn:Hg.
    + intros [= <-]. apply getitem_raises in Hg. tauto.
    + destruct (close_matches _ _ _ _) as [e'|close] eqn:Hc.
      * intros [= <-]. apply close_matches_raises in Hc.
        destruct Hc as [-> [v [Hv Hn]]]. apply issue_list_sound in Hv.
        conjs; trivial. right. split; [reflexivity|]. exists col, v. tauto.
      * destruct (expand d close) as [e'|l] eqn:He; [|discriminate].
        intros [= <-]. apply expand_raises in He.
        apply getitem_has_column in Hg. destruct He as [_ He], Hg as [Hg _]. congruence.
  - intros Hq Hscan. apply truthy_spec in Hq. rewrite Hq. cbn [negb].
    unfold found. rewrite Hscan. cbn [sort_results stable_sort]. split.
    + intros Hc. unfold getitem. now rewrite Hc.
    + intros col v Hg Hv Hna Hn. rewrite Hg.
      now rewrite (close_matches_of_other query col 3 (4 # 10) v).
  - intros col Hg Htexts. destruct (negb (Py.truthy (Py.strip query))); [eauto|].
    unfold found. destruct (sort_results _); [|eauto].
    rewrite Hg. destruct (close_matches_of_texts query col Htexts) as [l (_ & _ & _ & ->)].
    apply getitem_has_column in Hg. destruct Hg as [Hg _].
    rewrite expand_spec by exact Hg. eauto.
Qed.

Lemma search_raises_only_in_the_second_tier_witness :
  run (Some no_issue_column) (search_issue "zzz") = inl (KeyError ISSUE)
  /\ run (Some mixed_table) (search_issue "zzz") = inl TypeError_len.
Proof.
  split.
  - apply (search_raises_only_in_the_second_tier no_issue_column "zzz");
      [vm_compute; discriminate | reflexivity | reflexivity].
  - apply (search_raises_only_in_the_second_tier mixed_table "zzz") with
      (col := [Text "Login Issue"; NaN; Text "login issue"; Text "Login Issue";
               Other 0 (404 # 1) "404"])
      (v := Other 0 (404 # 1) "404");
      [vm_compute; discriminate | reflexivity | reflexivity
      | now (do 4 right; left) | reflexivity | discriminate].
Defined.

(** ** The search among installs *)

Lemma install_on_table d installed :
  exists d', fold_left (fun _ (t : DataFrame) => Some t) installed (Some d) = Some d'.
Proof.
  revert d. induction installed as [|t l IH]; intros d; simpl; eauto.
Qed.

(** X7. Whatever other threads install and whenever: the search never
    fails for want of a table at its second read ([TypeError]); and when
    the query is blank, no table is there, or the Matcher finds a
    candidate, the answer is the one of a search alone on the table of the
    first read. *)
Theorem search_among_installs (installs : list (list DataFrame))
    (slot : option DataFrame) (query : string) :
  let first := fold_left (fun _ (t : DataFrame) => Some t) (hd [] installs) slot in
  run_among installs slot (search_issue query) <> inl TypeError
  /\ (match first with
      | None => True
      | Some d => Py.strip query = "" \/ scan d (Py.strip (Py.lower query)) <> []
      end ->
      run_among installs slot (search_issue query) = run first (search_issue query)).
Proof.
  intros first. unfold search_issue. cbn [run_among run]. fold first.
  destruct first as [d|]; [|split; [discriminate | reflexivity]].
  destruct (negb (Py.truthy (Py.strip query))) eqn:Hq;
    [split; [discriminate | reflexivity]|].
  apply negb_false_iff, truthy_spec in Hq.
  destruct (sort_results _) as [|r l] eqn:Es; [|split; [discriminate | reflexivity]].
  apply stable_sort_nil in Es. split.
  - cbn [run_among].
    destruct (install_on_table d (hd [] (tl installs))) as [d' ->].
    destruct (getitem d' ISSUE) as [e|col] eqn:Hg; cbn [run_among].
    + apply getitem_raises in Hg. destruct Hg as [-> _]. discriminate.
    + destruct (close_matches _ _ _ _) as [e|close] eqn:Hc; cbn [run_among].
      * apply close_matches_raises in Hc. destruct Hc as [-> _]. discriminate.
      * destruct (expand d close) as [e|res] eqn:He; cbn [run_among]; [|discriminate].
        apply expand_raises in He. destruct He as [-> _]. discriminate.
  - intros [H | H]; contradiction.
Qed.

Lemma search_among_installs_witness :
  run_among [[]; [new_table]] (Some login_table) (search_issue " Login ") <> inl TypeError
  /\ run_among [[]; [new_table]] (Some login_table) (search_issue " Login ")
     = run (Some login_table) (search_issue " Login ").
Proof.
  destruct (search_among_installs [[]; [new_table]] (Some login_table) " Login ")
    as [H1 H2].
  split; [exact H1 | apply H2; right; vm_compute; discriminate].
Defined.

(** ** The download link *)

Lemma truthy_app s1 s2 : Py.truthy s1 = true -> Py.truthy (s1 ++ s2) = true.
Proof. destruct s1; [discriminate | reflexivity]. Qed.

Lemma build_download_url_cases link :
  (link = "" /\ build_download_url link = "")
  \/ (link <> "" /\ Py.contains "download=1" link = true
      /\ build_download_url link = link)
  \/ (link <> "" /\ Py.contains "download=1" link = false
      /\ exists sep, (sep = "&" \/ sep = "?")
                     /\ build_download_url link = (link ++ sep ++ "download=1")%string).
Proof.
  unfold build_download_url. destruct link as [|c l]; [now left | right].
  cbn [Py.truthy negb].
  destruct (Py.contains "download=1" (String c l)) eqn:E.
  - left. repeat split. discriminate.
  - right. split; [discriminate|]. split; [reflexivity|].
    destruct (Py.contains "?" (String c l)); eexists; (split; [|reflexivity]); auto.
Qed.

(** X8. [build_download_url] gives the empty text for the empty link only;
    otherwise its result starts with the link and asks for the download,
    and building the address of an address changes nothing. *)
Theorem build_download_url_idempotent (link : string) :
  build_download_url (build_download_url link) = build_download_url link
  /\ (build_download_url link = "" <-> link = "")
  /\ (link <> "" ->
      Substring "download=1" (build_download_url link)
      /\ exists rest, build_download_url link = (link ++ rest)%string).
Proof.
  destruct (build_download_url_cases link)
    as [[-> E] | [[Hne [Hc E]] | [Hne [Hc [sep [Hsep E]]]]]].
  - rewrite E. repeat split; try reflexivity; try contradiction.
  - rewrite E. split; [exact E|]. split; [tauto|]. intros _. split.
    + now apply contains_spec.
    + exists "". now rewrite str_app_nil_r.
  - assert (Substring "download=1" (link ++ sep ++ "download=1")) as Hsub.
    { exists (link ++ sep)%string, "". now rewrite str_app_assoc. }
    rewrite E. conjs.
    + unfold build_download_url.
      rewrite truthy_app by (destruct link; [contradiction | reflexivity]).
      apply contains_spec in Hsub. now rewrite Hsub.
    + split; [|intros ->; contradiction].
      destruct link; [contradiction | discriminate].
    + intros _. split; [exact Hsub | now exists (sep ++ "download=1")%string].
Qed.

Lemma download_excel_true link w :
  download_excel link w = true ->
  link <> ""
  /\ exists resp, response w = Some resp
                  /\ status_code resp = 200%Z
                  /\ (Substring "html" (Py.lower (content_type resp)) ->
                      (100000 <= content_length resp)%Z).
Proof.
  unfold download_excel.
  destruct (negb (Py.truthy (build_download_url link))) eqn:Hu; [discriminate|].
  destruct (response w) as [resp|]; [|discriminate].
  destruct (status_code resp =? 200)%Z eqn:Hs; [|discriminate].
  destruct (Py.contains "html" _ && _) eqn:Hh; [discriminate|].
  intros _. split.
  - intros ->. discriminate.
  - exists resp. split; [reflexivity|]. split; [now apply Z.eqb_eq|].
    intros Hsub. apply contains_spec in Hsub. rewrite Hsub in Hh.
    apply Z.ltb_ge. exact Hh.
Qed.

(** X9. A refresh touches the bot only after a good answer.  Either it
    returns the failure message and leaves the bot as it was, or a share link
    is set and the server answered 200 with a body that is not an HTML page
    of less than 100000 bytes. *)
Theorem refresh_fails_without_a_good_answer
    (share_link : string) (bot : ExamSupportBot) (w : World) :
  refresh share_link bot w = (bot, inr (Failure DOWNLOAD_FAILED))
  \/ (share_link <> ""
      /\ exists resp, response w = Some resp
                      /\ status_code resp = 200%Z
                      /\ (Substring "html" (Py.lower (content_type resp)) ->
                          (100000 <= content_length resp)%Z)).
Proof.
  destruct (download_excel share_link w) eqn:Hok.
  - right. now apply download_excel_true.
  - left. now apply refresh_download_failed.
Qed.

(** ** What refreshes keep *)

Lemma refresh_table share_link bot w :
  df (fst (refresh share_link bot w)) = df bot
  \/ exists d, read_excel w = inr d /\ download_excel share_link w = true
               /\ df (fst (refresh share_link bot w)) = Some d.
Proof.
  unfold refresh. destruct (download_excel share_link w); [|now left].
  unfold load_from_path. destruct (read_excel w) as [e|d]; [now left|].
  right. exists d. repeat split.
  destruct (getitem d ISSUE) as [e|col] eqn:Hg; [reflexivity|].
  unfold unique_issues. cbn [df]. now rewrite Hg.
Qed.

(** X10. Refreshing never takes a table away.  After any number of turns
    of the refresh loop the table is the one the bot had, or one that a
    turn downloaded and read; a bot that is ready stays ready. *)
Theorem refresh_loop_keeps_a_table
    (share_link : string) (turns : list World) (bot : ExamSupportBot) :
  (df (fst (refresh_loop share_link turns bot)) = df bot
   \/ exists w d, In w turns /\ read_excel w = inr d
                  /\ download_excel share_link w = true
                  /\ df (fst (refresh_loop share_link turns bot)) = Some d)
  /\ (ready bot = true -> ready (fst (refresh_loop share_link turns bot)) = true).
Proof.
  assert (df (fst (refresh_loop share_link turns bot)) = df bot
          \/ exists w d, In w turns /\ read_excel w = inr d
                         /\ download_excel share_link w = true
                         /\ df (fst (refresh_loop share_link turns bot)) = Some d) as H.
  { revert bot. induction turns as [|w turns IH]; intros bot; [now left|].
    cbn [refresh_loop].
    pose proof (refresh_table share_link bot w) as Hw.
    destruct (refresh share_link bot w) as [bot' [e|st]]; cbn [fst] in *.
    - destruct Hw as [Hw | [d (H1 & H2 & H3)]]; [now left|].
      right. exists w, d. repeat split; trivial. now left.
    - destruct (IH bot') as [E | [w' [d' (H1 & H2 & H3 & H4)]]].
      + rewrite E. destruct Hw as [Hw | [d (H1 & H2 & H3)]]; [now left|].
        right. exists w, d. repeat split; trivial. now left.
      + right. exists w', d'. repeat split; trivial. now right. }
  split; [exact H|].
  unfold ready. intros Hr.
  destruct H as [-> | [w [d (_ & _ & _ & ->)]]]; [exact Hr | reflexivity].
Qed.

Lemma refresh_loop_keeps_a_table_witness :
  ready (fst (refresh_loop "https://example.org/sheet"
                [error_page 503 "09:00"; unreadable_file "09:30"; error_page 404 "10:00"]
                {| df := Some login_table; _last_refresh := Some "08:30" |})) = true.
Proof.
  apply (refresh_loop_keeps_a_table "https://example.org/sheet"
           [error_page 503 "09:00"; unreadable_file "09:30"; error_page 404 "10:00"]
           {| df := Some login_table; _last_refresh := Some "08:30" |}).
  reflexivity.
Defined.

(** ** The counts of the status *)

Lemma unique_from_length seen l : List.length (unique_from seen l) <= List.length l.
Proof.
  revert seen. induction l as [|x l IH]; intros seen; simpl; [lia|].
  destruct (existsb _ _); [specialize (IH seen) | specialize (IH (x :: seen)); simpl]; lia.
Qed.

Lemma dropna_length col : List.length (dropna col) <= List.length col.
Proof. unfold dropna. apply filter_length_le. Qed.

Lemma nunique_bounds col : (0 <= nunique col <= Z.of_nat (List.length col))%Z.
Proof.
  unfold nunique, unique.
  pose proof (unique_from_length [] (dropna col)). pose proof (dropna_length col). lia.
Qed.

(** X11. The number of distinct issues never exceeds the number of
    records: whenever [unique_issues] returns, it lies between 0 and
    [total_records]. *)
Theorem unique_issues_at_most_total_records (bot : ExamSupportBot) (u : Z) :
  unique_issues bot = inr u -> (0 <= u <= total_records bot)%Z.
Proof.
  unfold unique_issues, total_records. destruct (df bot) as [d|].
  - destruct (getitem d ISSUE) as [e|col] eqn:Hg; [discriminate|].
    intros [= <-]. apply getitem_has_column in Hg. destruct Hg as [_ ->].
    pose proof (nunique_bounds (map (fun row => row ISSUE) (rows d))) as H.
    rewrite length_map in H. exact H.
  - intros [= <-]. lia.
Qed.

Lemma unique_issues_at_most_total_records_witness :
  (0 <= 3 <= total_records {| df := Some login_table; _last_refresh := None |})%Z.
Proof.
  apply (unique_issues_at_most_total_records
           {| df := Some login_table; _last_refresh := None |} 3).
  vm_compute. reflexivity.
Defined.

(** X12. The status route agrees with the refresh that went before it:
    after a refresh that returned a [Success] status, [/api/status] reports
    the bot as ready, with the same two counts and the time of that refresh. *)
Theorem status_agrees_with_refresh
    (share_link : string) (bot bot' : ExamSupportBot) (w : World)
    (n u : Z) (t : option string) :
  refresh share_link bot w = (bot', inr (Success n u t)) ->
  api_status bot' = inr {| status_ready := true;
                           status_total_records := n;
                           status_unique_issues := u;
                           status_last_refresh := last_refresh bot' |}
  /\ _last_refresh bot' = t
  /\ t = Some (clock w).
Proof.
  unfold refresh. destruct (download_excel share_link w); [|discriminate].
  unfold load_from_path. destruct (read_excel w) as [e|d]; [discriminate|].
  destruct (getitem d ISSUE) as [e|col] eqn:Hg; [discriminate|].
  unfold unique_issues at 1. cbn [df]. rewrite Hg.
  intros [= <- <- <- <-]. unfold api_status, unique_issues. cbn [df]. rewrite Hg.
  repeat split.
Qed.

Lemma status_agrees_with_refresh_witness :
  let bot' := {| df := Some login_table; _last_refresh := Some "09:00" |} in
  api_status bot' = inr {| status_ready := true;
                           status_total_records := 4;
                           status_unique_issues := 3;
                           status_last_refresh := last_refresh bot' |}
  /\ _last_refresh bot' = Some "09:00"
  /\ Some "09:00" = Some (clock (readable_file login_table "09:00")).
Proof.
  apply (status_agrees_with_refresh "https://example.org/sheet" init
           {| df := Some login_table; _last_refresh := Some "09:00" |}
           (readable_file login_table "09:00") 4 3 (Some "09:00")).
  vm_compute. reflexivity.
Defined.

(** ** The list of all issues *)

Lemma str_ltb_asym x y : Py.str_ltb x y = true -> Py.str_ltb y x = false.
Proof.
  intros H. destruct (Py.str_ltb y x) eqn:E; [|reflexivity].
  pose proof (str_ltb_trans _ _ _ H E) as C. now rewrite str_ltb_irrefl in C.
Qed.

Lemma str_ltb_may_precede_trans x y z :
  may_precede Py.str_ltb x y -> may_precede Py.str_ltb y z -> may_precede Py.str_ltb x z.
Proof.
  unfold may_precede. intros Hyx Hzy.
  destruct (Py.str_ltb z x) eqn:E; [|reflexivity].
  destruct (str_ltb_total y x) as [-> | [H | H]]; try congruence.
  pose proof (str_ltb_trans _ _ _ E H). congruence.
Qed.

Lemma sorted_distinct_ascending l :
  StronglySorted (may_precede Py.str_ltb) l -> NoDup l -> ascending l.
Proof.
  unfold ascending. induction 1 as [|x l Hs IH Hf]; intros Hnd; constructor.
  - apply IH. now inversion Hnd.
  - inversion Hnd as [|? ? Hx _]; subst. rewrite Forall_forall in *.
    intros y Hy. specialize (Hf y Hy). unfold may_precede in Hf.
    destruct (str_ltb_total x y) as [-> | [H | H]]; [contradiction | exact H | congruence].
Qed.

Section StableSortOn.
Context {A : Type}.
Variable before : A -> A -> bool.
Variable P : A -> Prop.
Local Abbreviation may_precede := (may_precede before).

Hypothesis before_asym_on :
  forall x y, P x -> P y -> before x y = true -> before y x = false.
Hypothesis may_precede_trans_on :
  forall x y z, P x -> P y -> P z ->
    may_precede x y -> may_precede y z -> may_precede x z.

Lemma insert_sorted_on x l :
  P x -> Forall P l ->
  StronglySorted may_precede l -> StronglySorted may_precede (insert before x l).
Proof.
  intros Hx HP Hs. induction Hs as [|y l Hl IH Hy]; simpl.
  - repeat constructor.
  - inversion HP as [|? ? Py Pl]; subst.
    destruct (before y x) eqn:Hyx.
    + constructor; [now apply IH|].
      rewrite Forall_forall in *. intros z Hz.
      apply (Permutation_in _ (insert_perm before x l)) in Hz.
      destruct Hz as [<- | Hz]; [now apply before_asym_on | now apply Hy].
    + constructor; [now constructor|].
      constructor; [exact Hyx|].
      rewrite Forall_forall in *. intros z Hz.
      apply may_precede_trans_on with y; auto.
Qed.

Lemma stable_sort_sorted_on l :
  Forall P l -> StronglySorted may_precede (stable_sort before l).
Proof.
  induction 1 as [|x l Hx Hl IH]; simpl; [constructor|].
  apply insert_sorted_on; trivial.
  rewrite Forall_forall in *. intros y Hy. apply Hl.
  now apply (Permutation_in _ (stable_sort_perm before l)).
Qed.
End StableSortOn.

Lemma value_ltb_asym_on v0 x y :
  same_family v0 x = true -> same_family v0 y = true ->
  value_ltb x y = true -> value_ltb y x = false.
Proof.
  destruct v0 as [| |s0|f0 k0 sh0], x as [| |s|f k sh], y as [| |t|g l sh'];
    simpl; try discriminate; intros _ _.
  - apply str_ltb_asym.
  - rewrite negb_true_iff, negb_false_iff. intros H. apply Qle_bool_iff.
    apply Qlt_le_weak, Qnot_le_lt. rewrite <- Qle_bool_iff. congruence.
Qed.

Lemma value_ltb_trans_on v0 x y z :
  same_family v0 x = true -> same_family v0 y = true -> same_family v0 z = true ->
  may_precede value_ltb x y -> may_precede value_ltb y z -> may_precede value_ltb x z.
Proof.
  unfold may_precede.
  destruct v0 as [| |s0|f0 k0 sh0], x as [| |s|f k sh], y as [| |t|g l sh'],
    z as [| |u|h m sh'']; simpl; try discriminate; intros _ _ _.
  - apply str_ltb_may_precede_trans.
  - rewrite !negb_false_iff, !Qle_bool_iff. intros H1 H2. now apply Qle_trans with l.
Qed.

Lemma value_ltb_total_on v0 x y :
  same_family v0 x = true -> same_family v0 y = true ->
  value_ltb y x = false -> value_eqb x y = false -> value_ltb x y = true.
Proof.
  destruct v0 as [| |s0|f0 k0 sh0], x as [| |s|f k sh], y as [| |t|g l sh'];
    simpl; try discriminate.
  - intros _ _ H E. apply String.eqb_neq in E.
    destruct (str_ltb_total s t) as [-> | [L | L]]; [contradiction | exact L | congruence].
  - intros Hf Hg. apply Nat.eqb_eq in Hf, Hg. subst f g. rewrite Nat.eqb_refl.
    rewrite negb_false_iff, negb_true_iff. cbn [andb]. intros H E.
    apply Qle_bool_iff in H.
    destruct (Qle_bool l k) eqn:C; [|reflexivity].
    apply Qle_bool_iff in C.
    assert (Qeq_bool k l = true) as Q by (apply Qeq_bool_iff; now apply Qle_antisym).
    congruence.
Qed.

Lemma distinct_perm l l' : Permutation l l' -> distinct l -> distinct l'.
Proof.
  unfold distinct. induction 1 as [|x l l' Hp IH|x y l|l l' l'' H1 IH1 H2 IH2]; intros H.
  - constructor.
  - inversion H as [|? ? Hf Hr]; subst. constructor; [|now apply IH].
    rewrite Forall_forall in *. intros z Hz. apply Hf.
    now apply (Permutation_in _ (Permutation_sym Hp)).
  - inversion H as [|? ? Hf Hr]; subst. inversion Hr as [|? ? Hf' Hr']; subst.
    inversion Hf as [|? ? Hyx Hfl]; subst.
    constructor; [constructor; [now rewrite value_eqb_sym | exact Hf']|].
    constructor; trivial.
  - auto.
Qed.

Lemma sorted_distinct_ascending_values v0 l :
  StronglySorted (may_precede value_ltb) l -> distinct l ->
  Forall (fun v => same_family v0 v = true) l -> ascending_values l.
Proof.
  unfold ascending_values, distinct.
  induction 1 as [|x l Hl IH Hx]; intros Hd Hfam; constructor.
  - apply IH; [now inversion Hd | now inversion Hfam].
  - inversion Hd as [|? ? Hdx _]; subst. inversion Hfam as [|? ? Fx Fl]; subst.
    rewrite Forall_forall in *. intros y Hy.
    apply (value_ltb_total_on v0); auto. now apply Hx.
Qed.

Lemma sorted_returns values result :
  sorted values = inr result ->
  result = stable_sort value_ltb values
  /\ exists v0, Forall (fun v => same_family v0 v = true) values.
Proof.
  unfold sorted. destruct values as [|v l].
  - intros [= <-]. split; [reflexivity|]. exists NaN. constructor.
  - destruct (forallb (same_family v) (v :: l)) eqn:E; [|discriminate].
    intros [= <-]. split; [reflexivity|]. exists v.
    apply Forall_forall. now apply forallb_forall.
Qed.

Lemma ascending_values_texts names :
  ascending_values (map Text names) -> ascending names.
Proof.
  unfold ascending_values, ascending.
  induction names as [|s names IH]; intros H; [constructor|].
  simpl in H. inversion H as [|? ? Hs Hf]; subst. constructor; [now apply IH|].
  rewrite Forall_forall in *. intros t Ht. apply (Hf (Text t)). now apply in_map.
Qed.

(** X13. When [get_all_issues] returns, its list is in strictly ascending
    order and holds no value twice: the values of the issue column that are
    not missing and nothing else, as many as [unique_issues] counts; without
    a table the list is empty.  When the values are all texts, these are the
    issue names, every text of the column once, in ascending order. *)
Theorem get_all_issues_ascending_and_complete (bot : ExamSupportBot) (values : list cell) :
  get_all_issues bot = inr values ->
  ascending_values values
  /\ distinct values
  /\ unique_issues bot = inr (Z.of_nat (List.length values))
  /\ (df bot = None -> values = [])
  /\ (forall d col, df bot = Some d -> getitem d ISSUE = inr col ->
        (forall v, In v values -> In v col /\ isna v = false)
        /\ (forall v, In v col -> isna v = false ->
              exists w, In w values /\ value_eqb v w = true)
        /\ (forall s, In (Text s) values <-> In (Text s) col))
  /\ (forall names, values = map Text names ->
        ascending names
        /\ NoDup names
        /\ (forall d col, df bot = Some d -> getitem d ISSUE = inr col ->
              forall s, In s names <-> In (Text s) col)).
Proof.
  intros Hget.
  assert (ascending_values values
          /\ distinct values
          /\ unique_issues bot = inr (Z.of_nat (List.length values))
          /\ (df bot = None -> values = [])
          /\ (forall d col, df bot = Some d -> getitem d ISSUE = inr col ->
                (forall v, In v values -> In v col /\ isna v = false)
                /\ (forall v, In v col -> isna v = false ->
                      exists w, In w values /\ value_eqb v w = true)
                /\ (forall s, In (Text s) values <-> In (Text s) col))) as H.
  { unfold get_all_issues, unique_issues in *. destruct (df bot) as [d|].
    - destruct (getitem d ISSUE) as [e|col] eqn:Hg; [discriminate|].
      apply sorted_returns in Hget. destruct Hget as [-> [v0 Hfam]].
      pose proof (stable_sort_perm value_ltb (issue_list col)) as Hperm.
      assert (distinct (stable_sort value_ltb (issue_list col))) as Hd.
      { apply (distinct_perm _ _ (Permutation_sym Hperm)), issue_list_distinct. }
      assert (Forall (fun v => same_family v0 v = true)
                (stable_sort value_ltb (issue_list col))) as Hfam'.
      { rewrite Forall_forall in *. intros v Hv. apply Hfam.
        now apply (Permutation_in _ Hperm). }
      conjs.
      + apply (sorted_distinct_ascending_values v0); trivial.
        apply (stable_sort_sorted_on value_ltb (fun v => same_family v0 v = true)
                 (value_ltb_asym_on v0) (value_ltb_trans_on v0) _ Hfam).
      + exact Hd.
      + now rewrite (Permutation_length Hperm).
      + discriminate.
      + intros d' col' [= <-] Hg'. rewrite Hg in Hg'. injection Hg' as <-. conjs.
        * intros v Hv. apply (Permutation_in _ Hperm) in Hv. now apply issue_list_sound.
        * intros v Hv Hna. destruct (issue_list_complete col v Hv Hna) as [w [Hw E]].
          exists w. split; [|exact E]. now apply (Permutation_in _ (Permutation_sym Hperm)).
        * intros s. rewrite <- (issue_list_In col s). split; apply Permutation_in;
            [exact Hperm | now symmetry].
    - injection Hget as <-. conjs.
      + constructor.
      + constructor.
      + reflexivity.
      + reflexivity.
      + intros d col Hd. discriminate Hd. }
  destruct H as (H1 & H2 & H3 & H4 & H5). conjs; trivial.
  intros names ->. conjs.
  - now apply ascending_values_texts.
  - now apply distinct_texts.
  - intros d col Hd Hg s. destruct (H5 d col Hd Hg) as (_ & _ & H).
    rewrite <- H, in_map_iff. split.
    + intros Hs. now exists s.
    + intros [t [[= ->] Ht]]. exact Ht.
Qed.

Lemma get_all_issues_ascending_and_complete_witness :
  let bot := {| df := Some login_table; _last_refresh := None |} in
  let values := [Text "Audio Problem"; Text "Login Issue"; Text "Logout Issue"] in
  ascending_values values
  /\ distinct values
  /\ unique_issues bot = inr (Z.of_nat (List.length values))
  /\ (df bot = None -> values = [])
  /\ (forall d col, df bot = Some d -> getitem d ISSUE = inr col ->
        (forall v, In v values -> In v col /\ isna v = false)
        /\ (forall v, In v col -> isna v = false ->
              exists w, In w values /\ value_eqb v w = true)
        /\ (forall s, In (Text s) values <-> In (Text s) col))
  /\ (forall names, values = map Text names ->
        ascending names
        /\ NoDup names
        /\ (forall d col, df bot = Some d -> getitem d ISSUE = inr col ->
              forall s, In s names <-> In (Text s) col)).
Proof.
  apply (get_all_issues_ascending_and_complete
           {| df := Some login_table; _last_refresh := None |}).
  vm_compute. reflexivity.
Defined.

(** On a column of texts and a number, [sorted] has no order to go by. *)
Example get_all_issues_of_mixed_values :
  get_all_issues {| df := Some mixed_table; _last_refresh := None |} = inl TypeError_order
  /\ unique_issues {| df := Some mixed_table; _last_refresh := None |} = inr 3%Z.
Proof. vm_compute. split; reflexivity. Qed.

(** ** The search route *)

Lemma dict_get_absent key members default :
  (forall v, ~ In (key, v) members) -> dict_get key members default = default.
Proof.
  revert default. induction members as [|[k v] rest IH]; intros default H; [reflexivity|].
  simpl. destruct (String.eqb k key) eqn:E.
  - apply String.eqb_eq in E. subst k. exfalso. apply (H v). now left.
  - apply IH. intros w Hw. apply (H w). now right.
Qed.

Lemma dict_get_last key pre v post default :
  (forall w, ~ In (key, w) post) -> dict_get key (pre ++ (key, v) :: post) default = v.
Proof.
  revert default. induction pre as [|[k w] pre IH]; intros default H; simpl.
  - rewrite String.eqb_refl. now apply dict_get_absent.
  - destruct (String.eqb k key); now apply IH.
Qed.

Lemma search_value_returns bot query r l :
  search_value bot query = inr (Some (r :: l)) ->
  exists s, query = JString s /\ search bot s = inr (Some (r :: l)).
Proof.
  destruct query; simpl; try (destruct (df bot); discriminate).
  intros H. now exists s.
Qed.

(** X14. The route [/api/search], on the value that [request.get_json()]
    returned.  It answers 400 exactly when that value is false in Python
    ([null], [false], zero, an empty text, list or object) or is an object
    whose query, the last one written, is absent or false in the same way.
    Any other value that is not an object makes the route raise
    [AttributeError].  A query that is true: before any table is installed
    the answer is "nothing found", whatever the query is; with a table, a
    query that is not a text makes the search raise [AttributeError], and
    a text of spaces only gets "nothing found".  When solutions are sent,
    the query was a text and they are what the search of it returned;
    their count is the length of the list, between 1 and 5, and the scores
    never go up. *)
Theorem api_search_replies (bot : ExamSupportBot) (body : json) :
  (api_search bot body = inr NoQueryProvided <->
     json_truthy body = false
     \/ exists members, body = JObject members
          /\ json_truthy (dict_get "query" members (JString "")) = false)
  /\ (forall members, body = JObject members ->
        (forall v, ~ In ("query", v) members) ->
        api_search bot body = inr NoQueryProvided)
  /\ (forall members pre v post, body = JObject members ->
        members = pre ++ ("query", v) :: post ->
        (forall w, ~ In ("query", w) post) ->
        dict_get "query" members (JString "") = v)
  /\ (json_truthy body = true -> (forall members, body <> JObject members) ->
        api_search bot body = inl AttributeError)
  /\ (forall members query, body = JObject members ->
        dict_get "query" members (JString "") = query ->
        json_truthy query = true ->
        (df bot = None -> api_search bot body = inr NoSolutionsFound)
        /\ ((forall s, query <> JString s) -> df bot <> None ->
              api_search bot body = inl AttributeError)
        /\ (forall s, query = JString s -> Py.strip s = "" ->
              api_search bot body = inr NoSolutionsFound))
  /\ (forall n rs, api_search bot body = inr (Solutions n rs) ->
        n = Z.of_nat (List.length rs) /\ (1 <= n <= 5)%Z /\ descending rs
        /\ exists members s, body = JObject members
             /\ dict_get "query" members (JString "") = JString s
             /\ search bot s = inr (Some rs)).
Proof.
  conjs.
  - unfold api_search. destruct (json_truthy body) eqn:Hb.
    + destruct body as [|b|q| |s|items|members]; try (split; [discriminate|]);
        try (intros [H | [m [H _]]]; discriminate).
      destruct (json_truthy (dict_get "query" members (JString ""))) eqn:Hq; cbn [negb].
      * split.
        -- destruct (search_value bot _) as [e|[[|r l]|]]; discriminate.
        -- intros [H | [m [[= <-] H]]]; congruence.
      * split; [|reflexivity]. intros _. right. now exists members.
    + split; [auto | reflexivity].
  - intros members -> Habs. unfold api_search.
    destruct members as [|m members]; [reflexivity|]. cbn [json_truthy].
    now rewrite dict_get_absent.
  - intros members pre v post _ -> Hpost. now apply dict_get_last.
  - intros Hb Hno. unfold api_search. rewrite Hb.
    destruct body; try reflexivity. now destruct (Hno members).
  - intros members query -> Hq Ht.
    assert (json_truthy (JObject members) = true) as Hb.
    { destruct members; [|reflexivity]. simpl in Hq. subst query. discriminate. }
    unfold api_search. rewrite Hb, Hq, Ht. cbn [negb]. conjs.
    + intros Hdf. destruct query; simpl; unfold search; rewrite Hdf; reflexivity.
    + intros Hns Hdf. destruct (df bot) as [d|] eqn:E; [|congruence].
      destruct query; simpl; rewrite ?E; try reflexivity. now destruct (Hns s).
    + intros s -> Hs. simpl. unfold search. destruct (df bot) as [d|]; [|reflexivity].
      rewrite search_issue_found, Hs. reflexivity.
  - intros n rs. unfold api_search.
    destruct (if json_truthy body then body else JObject []) as [|b|q| |s|items|members] eqn:Hd;
      try discriminate.
    destruct (negb (json_truthy (dict_get "query" members (JString "")))) eqn:Hq;
      [discriminate|].
    destruct (search_value bot _) as [e|[[|r l]|]] eqn:Hrun; try discriminate.
    intros [= <- <-]. apply search_value_returns in Hrun. destruct Hrun as [s [Hs Hrun]].
    assert (body = JObject members) as ->.
    { destruct (json_truthy body); [exact Hd|]. injection Hd as <-.
      simpl in Hq. discriminate. }
    pose proof Hrun as Hrun'. unfold search in Hrun'.
    destruct (df bot) as [d|] eqn:Hdf; [|discriminate].
    apply search_issue_returns in Hrun'.
    destruct Hrun' as [found_list [Hf [Hrs Hlen]]].
    conjs.
    + reflexivity.
    + simpl List.length in *. lia.
    + simpl List.length in *. lia.
    + rewrite Hrs. apply StronglySorted_prefix with found_list; [apply firstn_is_prefix|].
      now apply found_descending with (1 := Hf).
    + exists members, s. now conjs.
Qed.

(** The route on six bodies, before and after a table is installed. *)
Example api_search_on_bodies :
  let empty := {| df := None; _last_refresh := None |} in
  let bot := {| df := Some login_table; _last_refresh := None |} in
  api_search bot JNull = inr NoQueryProvided
  /\ api_search bot (JObject [("query", JNumber 0)]) = inr NoQueryProvided
  /\ api_search bot (JObject [("query", JString "x"); ("query", JArray [])])
     = inr NoQueryProvided
  /\ api_search bot (JArray [JString "query"]) = inl AttributeError
  /\ api_search bot (JObject [("query", JNumber 7)]) = inl AttributeError
  /\ api_search empty (JObject [("query", JNumber 7)]) = inr NoSolutionsFound.
Proof. vm_compute. conjs; reflexivity. Qed.

(** ** Loading *)

(** X15. [load_from_bytes] and [load_from_path] leave the bot in the same
    state: untouched when the workbook cannot be read, else with the table
    read and the time of the load.  [load_from_bytes] returns whenever the
    workbook is read; [load_from_path] raises after the install when the
    table has no issue column. *)
Theorem load_from_bytes_and_path (bot : ExamSupportBot) (w : World) :
  fst (load_from_bytes bot w) = fst (load_from_path bot w)
  /\ (forall e, read_excel w = inl e ->
        load_from_bytes bot w = (bot, inl e) /\ load_from_path bot w = (bot, inl e))
  /\ (forall d, read_excel w = inr d ->
        load_from_bytes bot w
        = ({| df := Some d; _last_refresh := Some (clock w) |}, inr tt)
        /\ (has_column d ISSUE = true -> snd (load_from_path bot w) = inr tt)
        /\ (has_column d ISSUE = false ->
            snd (load_from_path bot w) = inl (KeyError ISSUE))).
Proof.
  unfold load_from_bytes, load_from_path, getitem.
  destruct (read_excel w) as [e|d].
  - conjs.
    + reflexivity.
    + intros e' He. injection He as <-. now split.
    + intros d' Hd. discriminate Hd.
  - conjs.
    + destruct (has_column d ISSUE); reflexivity.
    + intros e' He. discriminate He.
    + intros d' Hd. injection Hd as <-. conjs.
      * reflexivity.
      * intros ->. reflexivity.
      * intros ->. reflexivity.
Qed.

(** ** The start-up *)

Lemma load_from_path_raises bot w b' e :
  load_from_path bot w = (b', inl e) ->
  read_excel w = inl e
  \/ exists d, read_excel w = inr d /\ e = KeyError ISSUE /\ has_column d ISSUE = false.
Proof.
  unfold load_from_path. destruct (read_excel w) as [e'|d].
  - intros [= _ <-]. now left.
  - destruct (getitem d ISSUE) as [e'|col] eqn:Hg; [|discriminate].
    intros [= _ <-]. right. exists d. apply getitem_raises in Hg. tauto.
Qed.

(** X16. The start-up raises in one case only: a share link is set, the
    download went through, and loading the downloaded file raised (the file
    is no workbook, or the table has no issue column).  What goes wrong with
    the local file is caught. *)
Theorem startup_raises_only_after_a_download
    (share_link : string) (cache : option World) (w : World)
    (bot bot' : ExamSupportBot) (e : exn) :
  startup_load share_link cache w bot = (bot', inl e) ->
  share_link <> ""
  /\ download_excel share_link w = true
  /\ (read_excel w = inl e
      \/ exists d, read_excel w = inr d /\ e = KeyError ISSUE
                   /\ has_column d ISSUE = false).
Proof.
  unfold startup_load.
  destruct (match cache with
            | Some c => match load_from_path bot c with
                        | (b, inr _) => (b, true)
                        | (b, inl _) => (b, false)
                        end
            | None => (bot, false)
            end) as [bot1 loaded].
  destruct loaded; [discriminate|].
  destruct (Py.truthy share_link) eqn:Hl; [|discriminate].
  destruct (download_excel share_link w) eqn:Hok; [|discriminate].
  intros H. apply load_from_path_raises in H.
  split; [now apply truthy_spec|]. now split.
Qed.

Lemma startup_raises_only_after_a_download_witness :
  "https://example.org/sheet" <> ""
  /\ download_excel "https://example.org/sheet" (unreadable_file "08:00") = true
  /\ (read_excel (unreadable_file "08:00") = inl ExcelError
      \/ exists d, read_excel (unreadable_file "08:00") = inr d
                   /\ ExcelError = KeyError ISSUE /\ has_column d ISSUE = false).
Proof.
  apply (startup_raises_only_after_a_download "https://example.org/sheet" None
           (unreadable_file "08:00") init init ExcelError).
  reflexivity.
Defined.

(** X17. A local file that reads as a table with an issue column is
    installed at start-up and nothing else happens: the outcome depends
    neither on the share link nor on the server. *)
Theorem startup_prefers_the_local_file
    (share_link : string) (c w : World) (bot : ExamSupportBot) (d : DataFrame) :
  read_excel c = inr d ->
  has_column d ISSUE = true ->
  startup_load share_link (Some c) w bot
  = ({| df := Some d; _last_refresh := Some (clock c) |}, inr tt).
Proof.
  intros Hd Hc. unfold startup_load, load_from_path, getitem. now rewrite Hd, Hc.
Qed.

Lemma startup_prefers_the_local_file_witness :
  startup_load "https://example.org/sheet" (Some (readable_file login_table "08:00"))
               (unreadable_file "08:01") init
  = ({| df := Some login_table; _last_refresh := Some "08:00" |}, inr tt).
Proof.
  apply (startup_prefers_the_local_file "https://example.org/sheet"
           (readable_file login_table "08:00") (unreadable_file "08:01") init login_table);
    reflexivity.
Defined.

(** X18. When nothing can be downloaded (no share link, or the download
    fails), the start-up returns without raising and the bot is as the load
    of the local file left it: untouched without a readable local file, and
    with the local table installed otherwise, also when that load raised for
    want of an issue column. *)
Theorem startup_without_download
    (share_link : string) (cache : option World) (w : World) (bot : ExamSupportBot) :
  download_excel share_link w = false ->
  startup_load share_link cache w bot
  = (match cache with
     | Some c => fst (load_from_path bot c)
     | None => bot
     end, inr tt)
  /\ (forall c d, cache = Some c -> read_excel c = inr d ->
        df (fst (startup_load share_link cache w bot)) = Some d)
  /\ (cache = None \/ (exists c e, cache = Some c /\ read_excel c = inl e) ->
      fst (startup_load share_link cache w bot) = bot).
Proof.
  intros Hok.
  assert (startup_load share_link cache w bot
          = (match cache with
             | Some c => fst (load_from_path bot c)
             | None => bot
             end, inr tt)) as E.
  { unfold startup_load. rewrite Hok. destruct cache as [c|].
    - destruct (load_from_path bot c) as [b [e|[]]]; cbn [fst];
        [destruct (Py.truthy share_link)|]; reflexivity.
    - destruct (Py.truthy share_link); reflexivity. }
  rewrite E. cbn [fst]. conjs.
  - reflexivity.
  - intros c d -> Hd. unfold load_from_path. rewrite Hd.
    destruct (getitem d ISSUE); reflexivity.
  - intros [-> | [c [e [-> He]]]]; [reflexivity|].
    unfold load_from_path. now rewrite He.
Qed.

Lemma startup_without_download_witness :
  df (fst (startup_load "" (Some (readable_file no_issue_column "08:00"))
             (error_page 404 "08:01") init))
  = Some no_issue_column.
Proof.
  destruct (startup_without_download "" (Some (readable_file no_issue_column "08:00"))
              (error_page 404 "08:01") init) as (_ & H & _); [reflexivity|].
  apply (H (readable_file no_issue_column "08:00") no_issue_column); reflexivity.
Defined.

(** ** The names the fallback can return *)

Lemma length_seq_of s : List.length (difflib.seq_of s) = String.length s.
Proof. induction s as [|c s IH]; simpl; [reflexivity | now rewrite IH]. Qed.

Lemma matches_le_min a b :
  difflib.matches a b <= Nat.min (List.length a) (List.length b).
Proof.
  pose proof (matches_le_quick a b). pose proof (quick_le_min a b). lia.
Qed.

Lemma similarity_bounds (query name : string) :
  (0 <= similarity query name <= 1)%Q
  /\ ((4 # 10 <= similarity query name)%Q ->
      String.length name <= 4 * String.length query
      /\ String.length query <= 4 * String.length name
      /\ (query <> "" -> name <> "")).
Proof.
  unfold similarity, difflib.ratio.
  pose proof (matches_le_min (difflib.seq_of name) (difflib.seq_of query)) as Hm.
  rewrite !length_seq_of in *.
  set (m := difflib.matches (difflib.seq_of name) (difflib.seq_of query)) in *.
  clearbody m. unfold difflib.calculate_ratio.
  destruct (String.length name + String.length query) as [|len] eqn:El.
  - split; [split; unfold Qle; simpl; lia|].
    intros _. assert (String.length name = 0 /\ String.length query = 0) as [Hn Hq] by lia.
    rewrite Hn, Hq. conjs; [lia | lia |].
    intros Hne. destruct query; [contradiction | discriminate].
  - unfold Qle. cbn [Qnum Qden]. rewrite <- El.
    assert (Z.pos (Pos.of_nat (String.length name + String.length query))
            = Z.of_nat (String.length name + String.length query)) as Ep.
    { rewrite El. lia. }
    rewrite Ep. clear Ep El len.
    assert (name = "" -> String.length name = 0) as Hempty by (now intros ->).
    assert (query <> "" -> String.length query <> 0) as Hfull
      by (destruct query; [contradiction | discriminate]).
    revert Hm Hempty Hfull. generalize (String.length name) (String.length query).
    intros ln lq Hm Hempty Hfull. split; [lia|].
    intros H. conjs; try lia.
    intros Hq E. specialize (Hempty E). specialize (Hfull Hq). lia.
Qed.

(** X19. Only names of a similar length can be close: a name whose
    similarity to the query is at least 0.4 is at most four times as long as
    the query and at least a quarter as long; the text of an empty name is
    never close to a query that is not empty.  The similarity always lies
    between 0 and 1. *)
Theorem close_names_have_similar_length (query name : string) :
  (0 <= similarity query name <= 1)%Q
  /\ ((4 # 10 <= similarity query name)%Q ->
      String.length name <= 4 * String.length query
      /\ String.length query <= 4 * String.length name
      /\ (query <> "" -> name <> "")).
Proof. exact (similarity_bounds query name). Qed.

Lemma close_names_have_similar_length_witness :
  String.length "Webcam Issue" <= 4 * String.length "Wbcam Isue"
  /\ String.length "Wbcam Isue" <= 4 * String.length "Webcam Issue"
  /\ ("Wbcam Isue" <> "" -> "Webcam Issue" <> "").
Proof.
  destruct (close_names_have_similar_length "Wbcam Isue" "Webcam Issue") as [_ H].
  apply H. vm_compute. discriminate.
Defined.

(** X20. What the second tier returns: every entry has the score 25 and
    carries, as its issue, the text of a name of the table that is close to
    the query (similarity at least 0.4); so its issue is never missing and
    never the empty text. *)
Theorem fallback_entries_carry_a_close_name
    (d : DataFrame) (query : string) (col : list cell) (rs : list Result) :
  getitem d ISSUE = inr col ->
  Py.strip query <> "" ->
  scan d (Py.strip (Py.lower query)) = [] ->
  run (Some d) (search_issue query) = inr (Some rs) ->
  forall r, In r rs ->
    score r = 25%Z
    /\ exists name, issue r = Text name /\ name <> ""
                    /\ In (Text name) col
                    /\ (4 # 10 <= similarity query name)%Q.
Proof.
  intros Hcol Hq Hscan Hrun r Hr.
  destruct (getitem_has_column _ _ _ Hcol) as [Hhas _].
  apply search_issue_returns in Hrun. destruct Hrun as [l [Hf [-> _]]].
  unfold found in Hf. rewrite Hscan in Hf. cbn [sort_results stable_sort] in Hf.
  rewrite Hcol in Hf. unfold close_matches in Hf.
  destruct (texts (issue_list col)) as [names|] eqn:Enames; [|discriminate].
  set (close := difflib.get_close_matches query names 3 (4 # 10)) in *.
  rewrite expand_spec in Hf by exact Hhas. injection Hf as <-.
  assert (In r (expansion d close)) as Hin.
  { rewrite <- (firstn_skipn 5 (expansion d _)). apply in_or_app. now left. }
  clear Hr. split.
  { apply expand_scores with (d := d) (l := expansion d close) (close := close);
      [now apply expand_spec | exact Hin]. }
  unfold expansion in Hin. apply in_flat_map in Hin. destruct Hin as [name [Hname Hin]].
  apply in_map_iff in Hin. destruct Hin as [row [<- Hrow]].
  apply select_spec in Hrow. destruct Hrow as [_ Hrow].
  destruct (get_close_matches_spec query names 3 (4 # 10)) as (_ & _ & G3 & _).
  destruct (G3 name Hname) as [Hlist Hclose].
  exists name. conjs.
  - cbn [issue fallback_result]. unfold get. now rewrite Hhas.
  - destruct (similarity_bounds query name) as [_ H].
    apply H; [exact Hclose|]. intros ->. now apply Hq.
  - apply issue_list_In. rewrite (texts_spec _ _ Enames). now apply in_map.
  - exact Hclose.
Qed.

Lemma fallback_entries_carry_a_close_name_witness :
  let r := {| score := 25; issue := Text "Webcam Issue";
              description := Text "no picture";
              solution := "allow the camera" |} in
  score r = 25%Z
  /\ exists name, issue r = Text name /\ name <> ""
                  /\ In (Text name) [Text "Webcam Issue"]
                  /\ (4 # 10 <= similarity "Wbcam Isue" name)%Q.
Proof.
  apply (fallback_entries_carry_a_close_name old_table "Wbcam Isue" [Text "Webcam Issue"]
           [{| score := 25; issue := Text "Webcam Issue";
               description := Text "no picture";
               solution := "allow the camera" |}]).
  - reflexivity.
  - vm_compute. discriminate.
  - vm_compute. reflexivity.
  - vm_compute. reflexivity.
  - left. reflexivity.
Defined.

(** ** Case and outer spaces of the query *)

Lemma strip_lower_empty query : Py.strip (Py.lower query) = "" <-> Py.strip query = "".
Proof. rewrite <- lower_strip. apply lower_empty. Qed.

(** X21. The first tier does not look at the case of the query nor at the
    spaces around it: two queries that are the same text once lowered and
    stripped get the same answer whenever the Matcher finds a candidate for
    them (or they are blank). *)
Theorem matcher_ignores_case_and_outer_spaces (d : DataFrame) (query1 query2 : string) :
  Py.strip (Py.lower query1) = Py.strip (Py.lower query2) ->
  Py.strip query1 = "" \/ scan d (Py.strip (Py.lower query1)) <> [] ->
  run (Some d) (search_issue query1) = run (Some d) (search_issue query2).
Proof.
  intros E H. rewrite !search_issue_found.
  assert (Py.truthy (Py.strip query1) = Py.truthy (Py.strip query2)) as Et.
  { destruct (Py.strip query1) eqn:E1, (Py.strip query2) eqn:E2; try reflexivity.
    - apply <- strip_lower_empty in E1. rewrite E in E1.
      apply -> strip_lower_empty in E1. congruence.
    - apply <- strip_lower_empty in E2. rewrite <- E in E2.
      apply -> strip_lower_empty in E2. congruence. }
  rewrite <- Et. destruct (Py.truthy (Py.strip query1)) eqn:Hq; [|reflexivity].
  cbn [negb]. destruct H as [H | H].
  - rewrite H in Hq. discriminate.
  - unfold found. rewrite <- E.
    destruct (sort_results (scan d (Py.strip (Py.lower query1)))) eqn:Es; [|reflexivity].
    apply stable_sort_nil in Es. contradiction.
Qed.

Lemma matcher_ignores_case_and_outer_spaces_witness :
  run (Some login_table) (search_issue " Login ")
  = run (Some login_table) (search_issue "LOGIN").
Proof.
  apply (matcher_ignores_case_and_outer_spaces login_table " Login " "LOGIN").
  - reflexivity.
  - right. vm_compute. discriminate.
Defined.

(** ** The table and its time *)

Lemma load_from_path_in_step bot w :
  in_step bot -> in_step (fst (load_from_path bot w)).
Proof.
  intros H. unfold load_from_path. destruct (read_excel w) as [e|d]; [exact H|].
  destruct (getitem d ISSUE); cbn [fst]; split; discriminate.
Qed.

Lemma refresh_in_step share_link bot w :
  in_step bot -> in_step (fst (refresh share_link bot w)).
Proof.
  intros H. unfold refresh. destruct (download_excel share_link w); [|exact H].
  pose proof (load_from_path_in_step bot w H) as H'.
  destruct (load_from_path bot w) as [bot' [e|u]]; [exact H'|].
  destruct (unique_issues bot'); exact H'.
Qed.

(** X22. The table and the time of its load are set together.  From the
    fresh bot on, whatever the start-up and the refreshes meet, the bot has
    a load time exactly when it has a table; so [ready] is false exactly
    when there is no load time to show. *)
Theorem table_and_load_time_in_step
    (share_link : string) (cache : option World) (w : World) (turns : list World)
    (bot : ExamSupportBot) :
  in_step bot ->
  in_step (fst (load_from_bytes bot w))
  /\ in_step (fst (refresh share_link bot w))
  /\ in_step (fst (startup_load share_link cache w bot))
  /\ in_step (fst (refresh_loop share_link turns bot))
  /\ (ready bot = false <-> _last_refresh bot = None).
Proof.
  intros H. conjs.
  - unfold load_from_bytes. destruct (read_excel w); [exact H | split; discriminate].
  - now apply refresh_in_step.
  - unfold startup_load.
    assert (in_step (fst (match cache with
                          | Some c => match load_from_path bot c with
                                      | (b, inr _) => (b, true)
                                      | (b, inl _) => (b, false)
                                      end
                          | None => (bot, false)
                          end))) as H1.
    { destruct cache as [c|]; [|exact H].
      pose proof (load_from_path_in_step bot c H) as Hc.
      destruct (load_from_path bot c) as [b [e|u]]; exact Hc. }
    destruct (match cache with
              | Some c => _
              | None => _
              end) as [bot1 loaded]. cbn [fst] in H1.
    destruct loaded; [exact H1|].
    destruct (Py.truthy share_link); [|exact H1].
    destruct (download_excel share_link w); [|exact H1].
    now apply load_from_path_in_step.
  - revert bot H. induction turns as [|t turns IH]; intros bot H; [exact H|].
    cbn [refresh_loop]. pose proof (refresh_in_step share_link bot t H) as Ht.
    destruct (refresh share_link bot t) as [bot' [e|st]]; [exact Ht|].
    now apply IH.
  - unfold ready. destruct H as [H1 H2].
    destruct (df bot); split; intros E; auto; try discriminate.
    specialize (H2 E). discriminate.
Qed.

Lemma table_and_load_time_in_step_witness :
  in_step (fst (load_from_bytes init (readable_file login_table "08:00")))
  /\ in_step (fst (refresh "https://example.org/sheet" init (readable_file login_table "08:00")))
  /\ in_step (fst (startup_load "https://example.org/sheet" None
                     (readable_file login_table "08:00") init))
  /\ in_step (fst (refresh_loop "https://example.org/sheet"
                     [error_page 503 "09:00"; readable_file login_table "09:30"] init))
  /\ (ready init = false <-> _last_refresh init = None).
Proof.
  apply (table_and_load_time_in_step "https://example.org/sheet" None
           (readable_file login_table "08:00")
           [error_page 503 "09:00"; readable_file login_table "09:30"] init).
  split; reflexivity.
Defined.
